(** * copilot-proxy: token lifecycle and authenticated proxy path

    A shallow embedding of the Go program and the properties of its token
    store, refresh loop, proxy handler, access gate and status recorder.
    The program is embedded in the revision with [TokenSource.Start],
    [NewProxy] and [StatusCodeTracker]; the parts in which the revision of
    main.go differs ([refresh], [start], [ServeHTTP]) are in [Rev0].

    Conventions.
    - Go's [int64] values are [Z]; arithmetic that can wrap goes through
      [wrap64].
    - An instant is a number of nanoseconds since the Unix epoch; a
      [time.Duration] is a number of nanoseconds.
    - [http.Header] is a finite map from (canonical) keys to the list of
      values, as in Go.
    - What lies outside the process (the token endpoint, the upstream API,
      the clock, the order of a map iteration) is an input of the
      definitions; every call made to the outside is recorded in a trace. *)

From Stdlib Require Import ZArith Lia String Ascii List.
From stdpp Require Import base gmap strings list fin_maps.
Import ListNotations.

Local Open Scope string_scope.
Local Open Scope list_scope.
Local Open Scope Z_scope.

(** ** Machine integers and time *)

Definition min_int64 : Z := - 2 ^ 63.
Definition max_int64 : Z := 2 ^ 63 - 1.

(** Two's complement wrap-around of an [int64] result. *)
Definition wrap64 (z : Z) : Z := (z + 2 ^ 63) mod 2 ^ 64 - 2 ^ 63.

(** [time.Second], a [Duration] in nanoseconds. *)
Definition Second : Z := 1000000000.

(** [time.Duration(n) * time.Second] for an [int64] [n]. *)
Definition seconds (n : Z) : Z := wrap64 (n * Second).

(** [t.Unix()]: whole seconds since the epoch, rounded down. *)
Definition Unix (t : Z) : Z := t / Second.

(** [time.After(d)] called at instant [now]: a channel that delivers once
    the clock has reached [now + d]. A channel variable is [None] when it is
    [nil]. *)
Definition time_After (now d : Z) : option Z := Some (now + d).

(** Whether a receive from the timer channel can proceed at [now]. A [nil]
    channel never delivers. *)
Definition fired (ch : option Z) (now : Z) : bool :=
  match ch with
  | Some deadline => deadline <=? now
  | None => false
  end.

(** ** JSON values as [encoding/json] sees them

    [json.Unmarshal] first checks that the whole input is one well-formed
    JSON text and only then stores values.  The bytes of a body are
    therefore modelled by what that check yields: [Invalid] for a text
    that is not JSON, [Valid v] for a text that denotes the value [v]. *)

(** A number literal: one that [strconv.ParseInt] reads (optional sign and
    digits only) with its value, or one with a fraction or an exponent. *)
Inductive numlit : Type :=
| IntLit (z : Z)
| FracLit.

#[warnings="-register-all"]
Inductive json : Type :=
| JNull
| JBool (b : bool)
| JNumber (n : numlit)
| JString (s : string)
| JArray (elems : list json)
| JObject (members : list (string * json)).

Inductive payload : Type :=
| Invalid (raw : string)
| Valid (v : json).

Inductive unmarshal_error : Type :=
| SyntaxError
| UnmarshalTypeError.

(** [d.saveError]: only the first error of a decode is kept. *)
Definition saveError (saved : option unmarshal_error) (e : unmarshal_error)
  : option unmarshal_error :=
  match saved with
  | Some _ => saved
  | None => Some e
  end.

(** *** Matching an object key against the struct's fields

    A key selects the field whose name it equals, or else the field whose
    name it equals after case folding.  [foldName] upper-cases ASCII
    letters; of the runes outside ASCII only U+017F (bytes C5 BF) and
    U+212A (bytes E2 84 AA) fold to an ASCII letter, [S] and [K].  Every
    other rune outside ASCII folds to a rune outside ASCII, which no field
    name here contains; such bytes are kept as they are. *)

Definition fold_ascii (c : ascii) : ascii :=
  let n := nat_of_ascii c in
  if ((97 <=? n) && (n <=? 122))%nat then ascii_of_nat (n - 32) else c.

Fixpoint foldName (s : string) : string :=
  match s with
  | EmptyString => EmptyString
  | String c rest =>
      match nat_of_ascii c, rest with
      | 197%nat, String c1 rest1 =>
          if (nat_of_ascii c1 =? 191)%nat
          then String "S"%char (foldName rest1)
          else String c (foldName rest)
      | 226%nat, String c1 (String c2 rest2) =>
          if ((nat_of_ascii c1 =? 132) && (nat_of_ascii c2 =? 170))%nat
          then String "K"%char (foldName rest2)
          else String c (foldName rest)
      | _, _ => String (fold_ascii c) (foldName rest)
      end
  end.

Section Fields.
Context {F : Type}.

(** The fields of a struct with their JSON names, in declaration
    order. *)
Variable fields : list (string * F).

Definition byExactName (key : string) : option F :=
  snd <$> find (fun nf => bool_decide (fst nf = key)) fields.

Definition byFoldedName (key : string) : option F :=
  snd <$> find (fun nf => bool_decide (foldName (fst nf) = foldName key)) fields.

Definition find_field (key : string) : option F :=
  match byExactName key with
  | Some f => Some f
  | None => byFoldedName key
  end.
End Fields.

(** *** Storing a JSON value into a Go variable

    Each function returns the new content of the variable, and whether the
    value did not fit its type (an [UnmarshalTypeError], after which the
    variable keeps its content and decoding goes on). [null] leaves a
    variable of a primitive type as it is. *)

Definition store_int64 (v : json) (old : Z) : Z * bool :=
  match v with
  | JNull => (old, false)
  | JNumber (IntLit z) =>
      if (min_int64 <=? z) && (z <=? max_int64) then (z, false) else (old, true)
  | _ => (old, true)
  end.

Definition store_string (v : json) (old : string) : string * bool :=
  match v with
  | JNull => (old, false)
  | JString s => (s, false)
  | _ => (old, true)
  end.

(** ** The token and its store *)

Record APIToken : Type := mkAPIToken {
  ExpiresAt : Z;
  RefreshIn : Z;
  Token_ : string
}.

(** The zero value of the struct, [var apiToken APIToken]. *)
Definition zero_APIToken : APIToken := mkAPIToken 0 0 "".

Inductive APIToken_field : Type := FExpiresAt | FRefreshIn | FToken.

Definition APIToken_fields : list (string * APIToken_field) :=
  [("expires_at", FExpiresAt); ("refresh_in", FRefreshIn); ("token", FToken)].

(** One member of the object: the key picks a field (unknown keys are
    skipped), the value is stored into it. *)
Definition APIToken_member (st : APIToken * option unmarshal_error)
    (m : string * json) : APIToken * option unmarshal_error :=
  let '(tok, saved) := st in
  match find_field APIToken_fields (fst m) with
  | None => (tok, saved)
  | Some FExpiresAt =>
      let '(x, bad) := store_int64 (snd m) (ExpiresAt tok) in
      (mkAPIToken x (RefreshIn tok) (Token_ tok),
       if bad then saveError saved UnmarshalTypeError else saved)
  | Some FRefreshIn =>
      let '(x, bad) := store_int64 (snd m) (RefreshIn tok) in
      (mkAPIToken (ExpiresAt tok) x (Token_ tok),
       if bad then saveError saved UnmarshalTypeError else saved)
  | Some FToken =>
      let '(x, bad) := store_string (snd m) (Token_ tok) in
      (mkAPIToken (ExpiresAt tok) (RefreshIn tok) x,
       if bad then saveError saved UnmarshalTypeError else saved)
  end.

(** [json.Unmarshal(data, apiToken)]: the struct as left by the decode and
    the error returned.  Members are stored in the order of the text, so of
    two members for one field the later wins. *)
Definition Unmarshal_APIToken (data : payload) (tok : APIToken)
  : APIToken * option unmarshal_error :=
  match data with
  | Invalid _ => (tok, Some SyntaxError)
  | Valid JNull => (tok, None)
  | Valid (JObject members) => fold_left APIToken_member members (tok, None)
  | Valid _ => (tok, Some UnmarshalTypeError)
  end.

Record TokenSource : Type := mkTokenSource {
  apiToken : APIToken;
  oauthToken : string
}.

Definition NewTokenSource (oauth : string) : TokenSource :=
  mkTokenSource zero_APIToken oauth.

(** [ts.Ready()] at instant [now]. *)
Definition Ready (ts : TokenSource) (now : Z) : bool :=
  ExpiresAt (apiToken ts) >? Unix now.

(** [ts.Token()]. *)
Definition Token (ts : TokenSource) : string := Token_ (apiToken ts).

(** ** HTTP headers

    [http.Header] is a [map[string][]string].  [Set] and [Get] go through
    [textproto.CanonicalMIMEHeaderKey]: a key made of token bytes only gets
    an upper-case letter at its start and after each hyphen and lower-case
    letters elsewhere; any other key is used as it is. *)

Abbreviation Header := (gmap string (list string)).

Definition validHeaderFieldByte (c : ascii) : bool :=
  let n := nat_of_ascii c in
  (((48 <=? n) && (n <=? 57)) || ((65 <=? n) && (n <=? 90))
   || ((97 <=? n) && (n <=? 122))
   || bool_decide (n ∈ [33; 35; 36; 37; 38; 39; 42; 43; 45; 46; 94; 95; 96; 124; 126]%nat))%nat.

Fixpoint all_bytes (p : ascii -> bool) (s : string) : bool :=
  match s with
  | EmptyString => true
  | String c rest => p c && all_bytes p rest
  end.

Fixpoint canonical_from (upper : bool) (s : string) : string :=
  match s with
  | EmptyString => EmptyString
  | String c rest =>
      let n := nat_of_ascii c in
      let c' :=
        if (upper && (97 <=? n) && (n <=? 122))%nat then ascii_of_nat (n - 32)
        else if (negb upper && (65 <=? n) && (n <=? 90))%nat then ascii_of_nat (n + 32)
        else c in
      String c' (canonical_from (bool_decide (c' = "-"%char)) rest)
  end.

Definition CanonicalMIMEHeaderKey (s : string) : string :=
  if all_bytes validHeaderFieldByte s then canonical_from true s else s.

(** [h.Set(key, value)] replaces whatever values the key had. *)
Definition Header_Set (key value : string) (h : Header) : Header :=
  <[CanonicalMIMEHeaderKey key := [value]]> h.

(** [h.Get(key)]: the first value of the key, or the empty string. *)
Definition Header_Get (key : string) (h : Header) : string :=
  match h !! CanonicalMIMEHeaderKey key with
  | Some (v :: _) => v
  | _ => ""
  end.

(** ** The credential exchange: [TokenSource.refresh] *)

Definition OAuthTokenEndpoint : string :=
  "https://api.github.com/copilot_internal/v2/token".
Definition APIEndpoint : string := "https://api.githubcopilot.com".

Record ExchangeRequest : Type := mkExchangeRequest {
  xMethod : string;
  xURL : string;
  xHeader : Header
}.

(** What the token endpoint does with one request: [client.Do] fails, the
    body cannot be read, or a response arrives with a status and a body. *)
Inductive RoundTrip : Type :=
| DoFailed
| ReadFailed
| Response (StatusCode : Z) (data : payload).

Inductive refresh_error : Type :=
| ErrDo
| ErrRead
| ErrStatus (code : Z) (data : payload)
| ErrUnmarshal (e : unmarshal_error).

(** Calls made to the outside by the refresh loop, and its log lines. *)
Inductive LoopEffect : Type :=
| ClientDo (req : ExchangeRequest)
| SlogError (msg : string)
| SlogInfo (msg : string).

Definition refresh_request (ts : TokenSource) : ExchangeRequest :=
  mkExchangeRequest "GET" OAuthTokenEndpoint
    (Header_Set "Accept" "application/json"
       (Header_Set "User-Agent" "vscode-chat/dev"
          (Header_Set "Authorization" ("Bearer " +:+ oauthToken ts) ∅))).

(** [ts.refresh(ctx, &apiToken)].  [http.NewRequestWithContext] cannot
    fail for the constant method and URL, so the request is always sent;
    [rt] is what comes back.  The result is the calls made, the content of
    [*apiToken] afterwards and the error returned. *)
Definition refresh (ts : TokenSource) (rt : RoundTrip) (tok : APIToken)
  : list LoopEffect * APIToken * option refresh_error :=
  let sent := [ClientDo (refresh_request ts)] in
  match rt with
  | DoFailed => (sent, tok, Some ErrDo)
  | ReadFailed => (sent, tok, Some ErrRead)
  | Response code data =>
      if negb (code =? 200) then (sent, tok, Some (ErrStatus code data))
      else
        match Unmarshal_APIToken data tok with
        | (tok', Some e) => (sent, tok', Some (ErrUnmarshal e))
        | (tok', None) => (sent, tok', None)
        end
  end.

(** ** The refresh loop: [TokenSource.Start] *)

(** The loop's variables.  [timeout] and [retry] hold the deadline of the
    channel made by [time.After], or [None] when [nil]; [first] tells
    whether the closed channel [first] is still non-nil; [stopped] is set
    once the loop has returned. *)
Record Loop : Type := mkLoop {
  ts : TokenSource;
  timeout : option Z;
  retry : option Z;
  first : bool;
  stopped : bool
}.

(** The case of the [select] that was taken. *)
Inductive Wake : Type :=
| CtxDone
| TimeoutFired
| RetryFired
| FirstFired
| Tick.

#[global] Instance Wake_eq_dec : EqDecision Wake.
Proof. solve_decision. Defined.

(** One pass through the loop as the outside drives it: the case taken, the
    clock when [Ready] reads it, the answer of the token endpoint should
    the exchange be made, and the clock when [time.After] is called. *)
Record Iter : Type := mkIter {
  wake : Wake;
  now_ready : Z;
  exchange : RoundTrip;
  now_after : Z
}.

(** Whether [select] can take a case at [now]: a timer channel must have
    reached its deadline, [first] must be non-nil.  Whether the context is
    done and whether a tick of the 10-second ticker is pending are told by
    the runtime. *)
Definition can_wake (w : Wake) (ctx_done tick_pending : bool) (now : Z)
    (l : Loop) : bool :=
  match w with
  | CtxDone => ctx_done
  | TimeoutFired => fired (timeout l) now
  | RetryFired => fired (retry l) now
  | FirstFired => first l
  | Tick => tick_pending
  end.

(** The assignments in the body of the [select] case taken. *)
Definition after_select (w : Wake) (l : Loop) : Loop :=
  match w with
  | CtxDone => mkLoop (ts l) (timeout l) (retry l) (first l) true
  | TimeoutFired => mkLoop (ts l) None (retry l) (first l) (stopped l)
  | RetryFired => mkLoop (ts l) (timeout l) None (first l) (stopped l)
  | FirstFired => mkLoop (ts l) (timeout l) (retry l) false (stopped l)
  | Tick => l
  end.

Definition Start_iter (i : Iter) (l : Loop) : Loop * list LoopEffect :=
  let l1 := after_select (wake i) l in
  match wake i with
  | CtxDone => (l1, [])
  | _ =>
      if Ready (ts l1) (now_ready i) then (l1, [])
      else
        match refresh (ts l1) (exchange i) zero_APIToken with
        | (sent, _, Some _) =>
            (mkLoop (ts l1) (timeout l1)
               (time_After (now_after i) (5 * Second)) (first l1) (stopped l1),
             sent ++ [SlogError "failed to refresh token"])
        | (sent, tok, None) =>
            (mkLoop (mkTokenSource tok (oauthToken (ts l1)))
               (time_After (now_after i) (seconds (wrap64 (RefreshIn tok - 10))))
               (retry l1) (first l1) (stopped l1),
             sent ++ [SlogInfo "token refreshed"])
        end
  end.

(** The state in which [Start] enters its loop. *)
Definition Start_init (t : TokenSource) : Loop := mkLoop t None None true false.

(** The loop over the passes the outside drives; nothing runs once the
    loop has returned. *)
Fixpoint Start_run (passes : list Iter) (l : Loop) : Loop * list LoopEffect :=
  match passes with
  | [] => (l, [])
  | i :: rest =>
      if stopped l then (l, [])
      else
        let '(l1, tr1) := Start_iter i l in
        let '(l2, tr2) := Start_run rest l1 in
        (l2, tr1 ++ tr2)
  end.

(** The exchanges among the effects of a run. *)
Definition exchanges (tr : list LoopEffect) : list ExchangeRequest :=
  omap (fun e => match e with ClientDo r => Some r | _ => None end) tr.

(** ** Requests, response writers and handlers *)

Record URL : Type := mkURL {
  Scheme : string;
  Host : string;
  Path : string;
  RawQuery : string
}.

Record Request : Type := mkRequest {
  Method : string;
  ReqURL : URL;
  ReqHeader : Header
}.

(** The calls a handler makes on an [http.ResponseWriter] that decide the
    status line and the body; edits of the response's header map are left
    out. *)
Inductive WriterCall : Type :=
| WriteHeader (code : Z)
| Write (b : string).

(** One line of the access log: method, path and the status the recorder
    holds when the handler returns.  Of the URL the program logs only the
    path is kept here, and the duration is left out. *)
Record AccessLog : Type := mkAccessLog {
  logMethod : string;
  logPath : string;
  logStatus : Z
}.

(** What serving one request does: the calls on the client's response
    writer, the requests sent to the upstream, the access log lines. *)
Record Outcome : Type := mkOutcome {
  written : list WriterCall;
  forwarded : list Request;
  logged : list AccessLog
}.

Definition Handler : Type := Request -> Outcome.

Definition newline : string := String (ascii_of_nat 10) EmptyString.

(** [http.Error(w, msg, code)]. *)
Definition http_Error (msg : string) (code : Z) : Outcome :=
  mkOutcome [WriteHeader code; Write (msg +:+ newline)] [] [].

Definition StatusServiceUnavailable : Z := 503.
Definition StatusUnauthorized : Z := 401.
Definition StatusOK : Z := 200.

(** ** The status recorder: [StatusCodeTracker]

    [under] lists the calls the recorder has passed on to the writer it
    wraps. *)
Record StatusCodeTracker : Type := mkTracker {
  under : list WriterCall;
  code : Z
}.

Definition TrackStatusCode : StatusCodeTracker := mkTracker [] 0.

Definition Tracker_WriteHeader (c : Z) (s : StatusCodeTracker) : StatusCodeTracker :=
  if negb (code s =? 0) then s
  else mkTracker (under s ++ [WriteHeader c]) c.

Definition Tracker_Write (b : string) (s : StatusCodeTracker) : StatusCodeTracker :=
  mkTracker (under s ++ [Write b]) (if code s =? 0 then StatusOK else code s).

Definition Tracker_call (s : StatusCodeTracker) (c : WriterCall) : StatusCodeTracker :=
  match c with
  | WriteHeader n => Tracker_WriteHeader n s
  | Write b => Tracker_Write b s
  end.

(** A handler that makes the calls [cs], in order, on the recorder. *)
Definition Tracker_run (cs : list WriterCall) (s : StatusCodeTracker)
  : StatusCodeTracker :=
  fold_left Tracker_call cs s.

(** The status a call puts on the wire when it is the first one: the code
    given to [WriteHeader], or 200 for a [Write] with no status before. *)
Definition status_of (c : WriterCall) : Z :=
  match c with
  | WriteHeader n => n
  | Write _ => StatusOK
  end.

Definition is_WriteHeader (c : WriterCall) : bool :=
  match c with
  | WriteHeader _ => true
  | Write _ => false
  end.

(** ** The proxy handler: [CustomHeaders] and [NewProxy] *)

Definition CustomHeaders (t : TokenSource) (header : Header) : Header :=
  Header_Set "Editor-Plugin-Version" "copilot-chat/0.1.0"
    (Header_Set "Editor-Version" "Neovim/0.11.0"
       (Header_Set "Copilot-Integration-Id" "vscode-chat"
          (Header_Set "User-Agent" "vscode-chat/dev"
             (Header_Set "Authorization" ("Bearer " +:+ Token t) header)))).

(** The token store as one request sees it: the proxy handler takes the
    read lock twice, in [Ready] and later in [Token], and the refresh loop
    may write in between. *)
Record View : Type := mkView {
  at_Ready : TokenSource;
  now : Z;
  at_Token : TokenSource
}.

Section Proxy.
(** The parts of [httputil.ReverseProxy] and of the upstream that the
    program does not define: the outbound request made from the inbound
    one before [Rewrite] runs (a clone without hop-by-hop and forwarding
    headers), [ProxyRequest.SetURL], and the calls the reverse proxy
    makes on its response writer for what the upstream answers (the
    status and body of the response, or 502 when the round trip
    fails).  The requests the library turns away before it runs [Rewrite]
    are not told apart here: every request is taken to reach the hook. *)
Variable outbound : Request -> Request.
Variable SetURL : string -> Request -> Request.
Variable answer : Request -> list WriterCall.

(** The [Rewrite] hook of the proxy built by [NewProxy]. *)
Definition Rewrite (t : TokenSource) (upstream : string) (out : Request)
  : Request :=
  let out1 := SetURL upstream out in
  mkRequest (Method out1) (ReqURL out1) (CustomHeaders t (ReqHeader out1)).

(** [proxy.ServeHTTP(w, r)] for a response writer [w] of any kind, given
    by what a call does to it: build the outbound request, run the hook,
    give [User-Agent] an empty value if it has none, send the request and
    copy the answer to [w]. *)
Definition ReverseProxy_ServeHTTP {W : Type} (call : W -> WriterCall -> W)
    (rewrite : Request -> Request) (w : W) (r : Request) : W * list Request :=
  let out := rewrite (outbound r) in
  let out' :=
    match ReqHeader out !! "User-Agent" with
    | Some _ => out
    | None => mkRequest (Method out) (ReqURL out)
                (Header_Set "User-Agent" "" (ReqHeader out))
    end in
  (fold_left call (answer out') w, [out']).

Definition NewProxy (upstream : string) (v : View) : Handler :=
  fun r =>
    if negb (Ready (at_Ready v) (now v))
    then http_Error "Service not ready" StatusServiceUnavailable
    else
      let tracker := TrackStatusCode in
      let '(tracker', sent) :=
        ReverseProxy_ServeHTTP Tracker_call
          (Rewrite (at_Token v) upstream) tracker r in
      mkOutcome (under tracker') sent
        [mkAccessLog (Method r) (Path (ReqURL r)) (code tracker')].
End Proxy.

(** ** The access gate: middlewares *)

Definition Middleware : Type := Handler -> Handler.

(** The loop runs from the last middleware to the first, so the first one
    is outermost. *)
Definition applyMiddlewares (handler : Handler) (middlewares : list Middleware)
  : Handler :=
  fold_right (fun m h => m h) handler middlewares.

Definition verifyAccessToken (token : string) : Middleware :=
  fun next =>
    if bool_decide (token = "") then next
    else
      fun r =>
        let authHeader := Header_Get "Authorization" (ReqHeader r) in
        if negb (bool_decide (authHeader = "Bearer " +:+ token))
        then http_Error "Invalid access token" StatusUnauthorized
        else next r.

(** ** Credential discovery: [parseOAuthToken] *)

Record TokenObject : Type := mkTokenObject {
  User : string;
  OAuthToken : string
}.

Definition zero_TokenObject : TokenObject := mkTokenObject "" "".

Inductive TokenObject_field : Type := FUser | FOAuthToken.

Definition TokenObject_fields : list (string * TokenObject_field) :=
  [("user", FUser); ("oauth_token", FOAuthToken)].

Definition TokenObject_member (st : TokenObject * option unmarshal_error)
    (m : string * json) : TokenObject * option unmarshal_error :=
  let '(obj, saved) := st in
  match find_field TokenObject_fields (fst m) with
  | None => (obj, saved)
  | Some FUser =>
      let '(x, bad) := store_string (snd m) (User obj) in
      (mkTokenObject x (OAuthToken obj),
       if bad then saveError saved UnmarshalTypeError else saved)
  | Some FOAuthToken =>
      let '(x, bad) := store_string (snd m) (OAuthToken obj) in
      (mkTokenObject (User obj) x,
       if bad then saveError saved UnmarshalTypeError else saved)
  end.

(** Storing a JSON value into a [TokenObject] variable. *)
Definition store_TokenObject (v : json) (st : TokenObject * option unmarshal_error)
  : TokenObject * option unmarshal_error :=
  match v with
  | JNull => st
  | JObject members => fold_left TokenObject_member members st
  | _ => (fst st, saveError (snd st) UnmarshalTypeError)
  end.

(** One member of the top-level object: its value is decoded into a fresh
    zero element, which is then put into the map under the member's key. *)
Definition cfg_member (st : gmap string TokenObject * option unmarshal_error)
    (m : string * json) : gmap string TokenObject * option unmarshal_error :=
  let '(cfg, saved) := st in
  let '(elem, saved') := store_TokenObject (snd m) (zero_TokenObject, saved) in
  (<[fst m := elem]> cfg, saved').

(** [json.Unmarshal(data, &cfg)] for [cfg : map[string]TokenObject].  A
    top-level [null] sets the map to [nil], which ranges like an empty
    map. *)
Definition Unmarshal_cfg (data : payload) (cfg : gmap string TokenObject)
  : gmap string TokenObject * option unmarshal_error :=
  match data with
  | Invalid _ => (cfg, Some SyntaxError)
  | Valid JNull => (∅, None)
  | Valid (JObject members) => fold_left cfg_member members (cfg, None)
  | Valid _ => (cfg, Some UnmarshalTypeError)
  end.

Inductive parse_error : Type :=
| ParseReadFile
| ParseUnmarshal (e : unmarshal_error)
| ParseNoToken.

Inductive parse_result : Type :=
| ParseOk (oauth : string)
| ParseErr (e : parse_error).

(** The [for ... range cfg] loop over the entries in the order they are
    visited: it returns in its first pass. *)
Definition range_first (visit : list (string * TokenObject)) : parse_result :=
  match visit with
  | (_, obj) :: _ => ParseOk (OAuthToken obj)
  | [] => ParseErr ParseNoToken
  end.

(** Go does not specify the order of a range over a map: each entry is
    visited once, in any order. *)
Definition range_order (cfg : gmap string TokenObject)
    (visit : list (string * TokenObject)) : Prop :=
  visit ≡ₚ map_to_list cfg.

(** The order that visits the second entry first and the first entry
    second. *)
Definition swap_first {A : Type} (l : list A) : list A :=
  match l with
  | a :: b :: rest => b :: a :: rest
  | _ => l
  end.

(** [parseOAuthToken()] for a given content of [apps.json] ([None] when the
    file cannot be read) and a given choice of visiting order. *)
Definition parseOAuthToken_in
    (order : gmap string TokenObject -> list (string * TokenObject))
    (file : option payload) : parse_result :=
  match file with
  | None => ParseErr ParseReadFile
  | Some data =>
      match Unmarshal_cfg data ∅ with
      | (_, Some e) => ParseErr (ParseUnmarshal e)
      | (cfg, None) => range_first (order cfg)
      end
  end.

(** The results one call may give: those of the orders Go allows. *)
Definition parseOAuthToken (file : option payload) (res : parse_result) : Prop :=
  exists order,
    (forall cfg, range_order cfg (order cfg)) /\
    parseOAuthToken_in order file = res.

(** ** Statements of the specification, for comparison with the code *)

(** The delay the specification gives for the timer armed after a
    successful exchange, for a least delay [minimalPositiveDelay] in
    nanoseconds. *)
Definition spec_refresh_delay (minimalPositiveDelay refreshAfterSeconds : Z) : Z :=
  Z.max ((refreshAfterSeconds - 10) * Second) minimalPositiveDelay.

(** The specification's reading of a well-formed token payload: a JSON
    object with a [token] string, an [expires_at] integer and a
    [refresh_in] integer. *)
Definition spec_has_required_fields (data : payload) : Prop :=
  exists members tok exp ref,
    data = Valid (JObject members) /\
    (("token", JString tok) ∈ members) /\
    (("expires_at", JNumber (IntLit exp)) ∈ members) /\
    (("refresh_in", JNumber (IntLit ref)) ∈ members).

(** ** Outcomes of an exchange, as the loop tells them apart *)

(** A failed exchange: the round trip fails, the body cannot be read, the
    status is not 200, or the body does not decode. *)
Inductive failed_exchange : RoundTrip -> Prop :=
| failed_do : failed_exchange DoFailed
| failed_read : failed_exchange ReadFailed
| failed_status code data :
    code <> 200 -> failed_exchange (Response code data)
| failed_decode data e :
    snd (Unmarshal_APIToken data zero_APIToken) = Some e ->
    failed_exchange (Response 200 data).

(** A successful exchange, with the token it yields. *)
Definition successful_exchange (rt : RoundTrip) (tok : APIToken) : Prop :=
  exists data, rt = Response 200 data /\
    Unmarshal_APIToken data zero_APIToken = (tok, None).

(** A pass that reaches the exchange: the loop was not told to stop and the
    stored token is not valid when [Ready] looks. *)
Definition attempts (i : Iter) (l : Loop) : Prop :=
  wake i <> CtxDone /\ Ready (ts l) (now_ready i) = false.

(** ** Payloads that decode into an [APIToken] *)

(** Values an [int64] field takes: [null], or an integer literal in
    range. *)
Definition int64_value (v : json) : Prop :=
  v = JNull \/ exists z, v = JNumber (IntLit z) /\ min_int64 <= z <= max_int64.

(** Values a [string] field takes: [null], or a string. *)
Definition string_value (v : json) : Prop :=
  v = JNull \/ exists s, v = JString s.

(** A member fits when its key names no field, or its value is one the
    field takes. *)
Definition member_fits (m : string * json) : Prop :=
  match find_field APIToken_fields (fst m) with
  | None => True
  | Some FToken => string_value (snd m)
  | Some FExpiresAt | Some FRefreshIn => int64_value (snd m)
  end.

(** The payloads that decode: [null], and objects all of whose members
    fit.  No field has to be present. *)
Definition decodes (data : payload) : Prop :=
  data = Valid JNull \/
  exists members, data = Valid (JObject members) /\ Forall member_fits members.

(** ** The revision without the status recorder (main.go)

    In that revision [refresh] itself arms the refresh timer and writes the
    store, the loop has no ticker and does not look at [Ready], the token
    carries an [endpoints] object that nothing reads, and the handler is
    [TokenSource.ServeHTTP].  Its [Middleware], [verifyAccessToken] and
    [parseOAuthToken] are those above. *)

Module Rev0.

Record Endpoints : Type := mkEndpoints {
  API : string;
  Proxy : string
}.

Record APIToken : Type := mkAPIToken {
  ExpiresAt : Z;
  RefreshIn : Z;
  Token_ : string;
  Endpoints_ : Endpoints
}.

Definition zero_APIToken : APIToken := mkAPIToken 0 0 "" (mkEndpoints "" "").

Inductive Endpoints_field : Type := FAPI | FProxy.

Definition Endpoints_fields : list (string * Endpoints_field) :=
  [("api", FAPI); ("proxy", FProxy)].

Definition Endpoints_member (st : Endpoints * option unmarshal_error)
    (m : string * json) : Endpoints * option unmarshal_error :=
  let '(e, saved) := st in
  match find_field Endpoints_fields (fst m) with
  | None => (e, saved)
  | Some FAPI =>
      let '(x, bad) := store_string (snd m) (API e) in
      (mkEndpoints x (Proxy e),
       if bad then saveError saved UnmarshalTypeError else saved)
  | Some FProxy =>
      let '(x, bad) := store_string (snd m) (Proxy e) in
      (mkEndpoints (API e) x,
       if bad then saveError saved UnmarshalTypeError else saved)
  end.

Definition store_Endpoints (v : json) (st : Endpoints * option unmarshal_error)
  : Endpoints * option unmarshal_error :=
  match v with
  | JNull => st
  | JObject members => fold_left Endpoints_member members st
  | _ => (fst st, saveError (snd st) UnmarshalTypeError)
  end.

Inductive APIToken_field : Type := FExpiresAt | FRefreshIn | FToken | FEndpoints.

Definition APIToken_fields : list (string * APIToken_field) :=
  [("expires_at", FExpiresAt); ("refresh_in", FRefreshIn); ("token", FToken);
   ("endpoints", FEndpoints)].

Definition APIToken_member (st : APIToken * option unmarshal_error)
    (m : string * json) : APIToken * option unmarshal_error :=
  let '(tok, saved) := st in
  match find_field APIToken_fields (fst m) with
  | None => (tok, saved)
  | Some FExpiresAt =>
      let '(x, bad) := store_int64 (snd m) (ExpiresAt tok) in
      (mkAPIToken x (RefreshIn tok) (Token_ tok) (Endpoints_ tok),
       if bad then saveError saved UnmarshalTypeError else saved)
  | Some FRefreshIn =>
      let '(x, bad) := store_int64 (snd m) (RefreshIn tok) in
      (mkAPIToken (ExpiresAt tok) x (Token_ tok) (Endpoints_ tok),
       if bad then saveError saved UnmarshalTypeError else saved)
  | Some FToken =>
      let '(x, bad) := store_string (snd m) (Token_ tok) in
      (mkAPIToken (ExpiresAt tok) (RefreshIn tok) x (Endpoints_ tok),
       if bad then saveError saved UnmarshalTypeError else saved)
  | Some FEndpoints =>
      let '(x, saved') := store_Endpoints (snd m) (Endpoints_ tok, saved) in
      (mkAPIToken (ExpiresAt tok) (RefreshIn tok) (Token_ tok) x, saved')
  end.

Definition Unmarshal_APIToken (data : payload) (tok : APIToken)
  : APIToken * option unmarshal_error :=
  match data with
  | Invalid _ => (tok, Some SyntaxError)
  | Valid JNull => (tok, None)
  | Valid (JObject members) => fold_left APIToken_member members (tok, None)
  | Valid _ => (tok, Some UnmarshalTypeError)
  end.

Record TokenSource : Type := mkTokenSource {
  apiToken : APIToken;
  oauthToken : string
}.

Definition NewTokenSource (oauth : string) : TokenSource :=
  mkTokenSource zero_APIToken oauth.

Definition Ready (t : TokenSource) (now : Z) : bool :=
  ExpiresAt (apiToken t) >? Unix now.

Definition Token (t : TokenSource) : string := Token_ (apiToken t).

Definition Endpoint : string := "https://api.githubcopilot.com".

Definition refresh_request (t : TokenSource) : ExchangeRequest :=
  mkExchangeRequest "GET" OAuthTokenEndpoint
    (Header_Set "Accept" "application/json"
       (Header_Set "User-Agent" "vscode-chat/dev"
          (Header_Set "Authorization" ("Bearer " +:+ oauthToken t) ∅))).

(** [ts.refresh(ctx)] with [now] the clock when [time.After] is called:
    the calls made, the token source afterwards, the timer channel
    returned and the error. *)
Definition refresh (t : TokenSource) (rt : RoundTrip) (now : Z)
  : list LoopEffect * TokenSource * option Z * option refresh_error :=
  let sent := [ClientDo (refresh_request t)] in
  match rt with
  | DoFailed => (sent, t, None, Some ErrDo)
  | ReadFailed => (sent, t, None, Some ErrRead)
  | Response code data =>
      if negb (code =? 200) then (sent, t, None, Some (ErrStatus code data))
      else
        match Unmarshal_APIToken data zero_APIToken with
        | (_, Some e) => (sent, t, None, Some (ErrUnmarshal e))
        | (token, None) =>
            let timeout := time_After now (seconds (wrap64 (RefreshIn token - 10))) in
            (sent, mkTokenSource token (oauthToken t), timeout, None)
        end
  end.

Record Loop : Type := mkLoop {
  ts : TokenSource;
  timeout : option Z;
  retry : option Z;
  first : bool;
  stopped : bool
}.

Inductive Wake : Type :=
| CtxDone
| TimeoutFired
| RetryFired
| FirstFired.

Definition after_select (w : Wake) (l : Loop) : Loop :=
  match w with
  | CtxDone => mkLoop (ts l) (timeout l) (retry l) (first l) true
  | TimeoutFired => mkLoop (ts l) None (retry l) (first l) (stopped l)
  | RetryFired => mkLoop (ts l) (timeout l) None (first l) (stopped l)
  | FirstFired => mkLoop (ts l) (timeout l) (retry l) false (stopped l)
  end.

(** One pass of [start]: the case taken, what the endpoint answers, the
    clock at the [time.After] call. *)
Definition start_iter (w : Wake) (rt : RoundTrip) (now : Z) (l : Loop)
  : Loop * list LoopEffect :=
  let l1 := after_select w l in
  match w with
  | CtxDone => (l1, [])
  | _ =>
      match refresh (ts l1) rt now with
      | (sent, t, _, Some _) =>
          (mkLoop t (timeout l1) (time_After now (5 * Second)) (first l1) (stopped l1),
           sent ++ [SlogError "failed to refresh token"])
      | (sent, t, next, None) =>
          (mkLoop t next (retry l1) (first l1) (stopped l1),
           sent ++ [SlogInfo "refreshed token"])
      end
  end.

Record View : Type := mkView {
  at_Ready : TokenSource;
  now : Z;
  at_Token : TokenSource
}.

Section Proxy.
Variable outbound : Request -> Request.
Variable SetURL : string -> Request -> Request.
Variable answer : Request -> list WriterCall.

(** The [Rewrite] hook built in [ServeHTTP], for the token read before. *)
Definition Rewrite (token : string) (out : Request) : Request :=
  let out1 := SetURL Endpoint out in
  mkRequest (Method out1) (ReqURL out1)
    (Header_Set "Editor-Plugin-Version" "copilot-chat/0.1.0"
       (Header_Set "Editor-Version" "Neovim/0.11.0"
          (Header_Set "Copilot-Integration-Id" "vscode-chat"
             (Header_Set "User-Agent" "vscode-chat/dev"
                (Header_Set "Authorization" ("Bearer " +:+ token)
                   (ReqHeader out1)))))).

(** [ts.ServeHTTP(w, r)]; [url.Parse] does not fail on the constant
    endpoint.  The proxy writes to the client's writer itself, which is
    kept as the list of the calls made on it. *)
Definition ServeHTTP (v : View) : Handler :=
  fun r =>
    if negb (Ready (at_Ready v) (now v))
    then http_Error "Service not ready" StatusServiceUnavailable
    else
      let token := Token (at_Token v) in
      let '(w, sent) :=
        ReverseProxy_ServeHTTP outbound answer
          (fun w c => w ++ [c]) (Rewrite token) [] r in
      mkOutcome w sent [].
End Proxy.

End Rev0.

(** ** Sample inputs

    The scenario of the specification: the credential "abc", an endpoint
    that issues the token "t1", a client that calls [GET /foo] with a key
    of its own. *)

Definition ex_ts : TokenSource := NewTokenSource "abc".

Definition ex_token_json (expires_at refresh_in : Z) : json :=
  JObject [("token", JString "t1");
           ("expires_at", JNumber (IntLit expires_at));
           ("refresh_in", JNumber (IntLit refresh_in))].

Definition ex_request : Request :=
  mkRequest "GET" (mkURL "http" "localhost:8080" "/foo" "")
    {["Authorization" := ["Bearer client-key"]]}.

Definition ex_outbound (r : Request) : Request := r.

Definition ex_SetURL (upstream : string) (r : Request) : Request :=
  mkRequest (Method r)
    (mkURL "https" "api.githubcopilot.com" (Path (ReqURL r)) (RawQuery (ReqURL r)))
    (ReqHeader r).

Definition ex_answer (out : Request) : list WriterCall :=
  [WriteHeader 200; Write "ok"].

Definition ex_next : Handler := fun r => mkOutcome [WriteHeader 200] [r] [].

Definition ex_apps : payload :=
  Valid (JObject
    [("github.com:Iv1.a", JObject [("user", JString "u1"); ("oauth_token", JString "gho_1")]);
     ("github.com:Iv1.b", JObject [("user", JString "u2"); ("oauth_token", JString "gho_2")])]).

(** ** Further parts of the program *)

(** The loop of [applyMiddlewares] as it is written, with [n] standing for
    [i + 1]: from [i = len(middlewares) - 1] down to [0] the handler is
    wrapped in [middlewares[i]]. *)
Fixpoint applyMiddlewares_loop (n : nat) (handler : Handler)
    (middlewares : list Middleware) : Handler :=
  match n with
  | O => handler
  | S i =>
      match middlewares !! i with
      | Some m => applyMiddlewares_loop i (m handler) middlewares
      | None => handler
      end
  end.

(** In every pass of the run the refresh timer is due at the very instant
    it is armed, so that the next pass can be woken without any wait. *)
Fixpoint due_when_armed (passes : list Iter) (l : Loop) : Prop :=
  match passes with
  | [] => True
  | i :: rest =>
      fired (timeout (fst (Start_iter i l))) (now_after i) = true /\
      due_when_armed rest (fst (Start_iter i l))
  end.


(** The members of an object whose key names a field of [APIToken]. *)
Definition known_member (m : string * json) : bool :=
  match find_field APIToken_fields (fst m) with
  | Some _ => true
  | None => false
  end.

(** The two revisions' tokens hold the same expiry, delay and value, and an
    error of the later one is no news to the earlier. *)
Definition same_token (st0 : Rev0.APIToken * option unmarshal_error)
    (st : APIToken * option unmarshal_error) : Prop :=
  ExpiresAt (fst st) = Rev0.ExpiresAt (fst st0) /\
  RefreshIn (fst st) = Rev0.RefreshIn (fst st0) /\
  Token_ (fst st) = Rev0.Token_ (fst st0) /\
  (snd st0 = None -> snd st = None).

(** The order that visits the entry of key [k] first, when the map has
    one. *)
Definition visit_first (k : string) (cfg : gmap string TokenObject)
  : list (string * TokenObject) :=
  match cfg !! k with
  | Some o => (k, o) :: map_to_list (delete k cfg)
  | None => map_to_list cfg
  end.

(** * Properties *)

(** ** The clock and [Ready] *)

Lemma Second_pos : 0 < Second.
Proof. unfold Second. lia. Qed.

(** A token is valid exactly at the instants before its expiry. *)
Lemma Ready_iff (t : TokenSource) (now : Z) :
  Ready t now = true <-> now < ExpiresAt (apiToken t) * Second.
Proof.
  unfold Ready, Unix. rewrite Z.gtb_ltb, Z.ltb_lt.
  pose proof Second_pos as HS. split; intros H.
  - destruct (Z_lt_le_dec now (ExpiresAt (apiToken t) * Second)) as [|Hle]; [done|].
    assert (ExpiresAt (apiToken t) <= now / Second); [|lia].
    apply Z.div_le_lower_bound; lia.
  - apply Z.div_lt_upper_bound; lia.
Qed.

Lemma Ready_false_iff (t : TokenSource) (now : Z) :
  Ready t now = false <-> ExpiresAt (apiToken t) * Second <= now.
Proof.
  rewrite <- Z.nlt_ge, <- Ready_iff. by destruct (Ready t now).
Qed.

(** ** Header keys used by the program are canonical *)

Lemma canonical_keys :
  CanonicalMIMEHeaderKey "Authorization" = "Authorization" /\
  CanonicalMIMEHeaderKey "User-Agent" = "User-Agent" /\
  CanonicalMIMEHeaderKey "Copilot-Integration-Id" = "Copilot-Integration-Id" /\
  CanonicalMIMEHeaderKey "Editor-Version" = "Editor-Version" /\
  CanonicalMIMEHeaderKey "Editor-Plugin-Version" = "Editor-Plugin-Version" /\
  CanonicalMIMEHeaderKey "Accept" = "Accept".
Proof. repeat split; vm_compute; reflexivity. Qed.

(** What [CustomHeaders] leaves in the map, whatever was there before. *)
Lemma CustomHeaders_lookup (t : TokenSource) (h : Header) :
  CustomHeaders t h !! "Authorization" = Some ["Bearer " +:+ Token t] /\
  CustomHeaders t h !! "User-Agent" = Some ["vscode-chat/dev"] /\
  CustomHeaders t h !! "Copilot-Integration-Id" = Some ["vscode-chat"] /\
  CustomHeaders t h !! "Editor-Version" = Some ["Neovim/0.11.0"] /\
  CustomHeaders t h !! "Editor-Plugin-Version" = Some ["copilot-chat/0.1.0"].
Proof.
  destruct canonical_keys as (Ha & Hu & Hc & He & Hp & _).
  unfold CustomHeaders, Header_Set. rewrite Ha, Hu, Hc, He, Hp.
  split; [|split; [|split; [|split]]].
  - do 4 (rewrite lookup_insert_ne by discriminate). apply lookup_insert_eq.
  - do 3 (rewrite lookup_insert_ne by discriminate). apply lookup_insert_eq.
  - do 2 (rewrite lookup_insert_ne by discriminate). apply lookup_insert_eq.
  - rewrite lookup_insert_ne by discriminate. apply lookup_insert_eq.
  - apply lookup_insert_eq.
Qed.

(** Keys other than the five are as before. *)
Lemma CustomHeaders_other (t : TokenSource) (h : Header) (k : string) :
  k ∉ ["Authorization"; "User-Agent"; "Copilot-Integration-Id";
       "Editor-Version"; "Editor-Plugin-Version"] ->
  CustomHeaders t h !! k = h !! k.
Proof.
  intros Hk. destruct canonical_keys as (Ha & Hu & Hc & He & Hp & _).
  unfold CustomHeaders, Header_Set. rewrite Ha, Hu, Hc, He, Hp.
  rewrite !elem_of_cons in Hk.
  do 5 (rewrite lookup_insert_ne by (intros Heq; apply Hk; subst k; tauto)).
  done.
Qed.

(** ** The proxy handler *)

(** A request is sent upstream only under a valid token. *)
Lemma forwarded_only_when_ready
    (outbound : Request -> Request) (SetURL : string -> Request -> Request)
    (answer : Request -> list WriterCall) (upstream : string)
    (v : View) (r : Request) :
  forwarded (NewProxy outbound SetURL answer upstream v r) <> [] ->
  Ready (at_Ready v) (now v) = true.
Proof.
  unfold NewProxy. destruct (Ready (at_Ready v) (now v)); [reflexivity|].
  intros H. exfalso. apply H. reflexivity.
Qed.

(** The outbound request of a served request: it is the only one, and it
    is the inbound request after [outbound], [SetURL] and
    [CustomHeaders]. *)
Lemma NewProxy_ready
    (outbound : Request -> Request) (SetURL : string -> Request -> Request)
    (answer : Request -> list WriterCall) (upstream : string)
    (v : View) (r : Request) :
  Ready (at_Ready v) (now v) = true ->
  let out := Rewrite SetURL (at_Token v) upstream (outbound r) in
  NewProxy outbound SetURL answer upstream v r =
    mkOutcome (under (Tracker_run (answer out) TrackStatusCode)) [out]
      [mkAccessLog (Method r) (Path (ReqURL r))
         (code (Tracker_run (answer out) TrackStatusCode))].
Proof.
  intros Hready out. unfold NewProxy. rewrite Hready.
  unfold ReverseProxy_ServeHTTP. fold out.
  change (fold_left Tracker_call) with Tracker_run.
  destruct (CustomHeaders_lookup (at_Token v)
              (ReqHeader (SetURL upstream (outbound r)))) as (_ & Hua & _).
  change (ReqHeader out) with
    (CustomHeaders (at_Token v) (ReqHeader (SetURL upstream (outbound r)))).
  rewrite Hua. reflexivity.
Qed.

(** The same guard in the revision without the status recorder. *)
Lemma Rev0_ServeHTTP_not_ready
    (outbound : Request -> Request) (SetURL : string -> Request -> Request)
    (answer : Request -> list WriterCall) (v : Rev0.View) (r : Request) :
  Rev0.Ready (Rev0.at_Ready v) (Rev0.now v) = false ->
  Rev0.ServeHTTP outbound SetURL answer v r
    = http_Error "Service not ready" StatusServiceUnavailable.
Proof.
  intros Hready. unfold Rev0.ServeHTTP. rewrite Hready. reflexivity.
Qed.

(** C1. When the stored token is not valid at the moment the proxy handler
    runs, the handler answers 503 Service Unavailable with the body
    "Service not ready" and sends nothing to the upstream; the outcome is
    the same whatever the upstream would have answered.  This holds for
    the handler of [NewProxy] and for [ServeHTTP] of the other
    revision. *)
Theorem proxy_not_ready_503
    (outbound : Request -> Request) (SetURL : string -> Request -> Request)
    (answer : Request -> list WriterCall) (upstream : string) (r : Request) :
  (forall v : View,
     Ready (at_Ready v) (now v) = false ->
     NewProxy outbound SetURL answer upstream v r
       = http_Error "Service not ready" StatusServiceUnavailable /\
     written (NewProxy outbound SetURL answer upstream v r)
       = [WriteHeader 503; Write ("Service not ready" +:+ newline)] /\
     forwarded (NewProxy outbound SetURL answer upstream v r) = []) /\
  (forall v : Rev0.View,
     Rev0.Ready (Rev0.at_Ready v) (Rev0.now v) = false ->
     Rev0.ServeHTTP outbound SetURL answer v r
       = http_Error "Service not ready" StatusServiceUnavailable /\
     written (Rev0.ServeHTTP outbound SetURL answer v r)
       = [WriteHeader 503; Write ("Service not ready" +:+ newline)] /\
     forwarded (Rev0.ServeHTTP outbound SetURL answer v r) = []).
Proof.
  split.
  - intros v Hready. unfold NewProxy. rewrite Hready.
    split; [|split]; reflexivity.
  - intros v Hready. rewrite Rev0_ServeHTTP_not_ready by exact Hready.
    split; [|split]; reflexivity.
Qed.

(** C2. When [Ready] holds, exactly one request goes upstream; its
    [Authorization] header is the single value "Bearer " followed by the
    token the store holds when [Token] reads it, and [User-Agent],
    [Copilot-Integration-Id], [Editor-Version] and [Editor-Plugin-Version]
    each hold their one fixed value, whatever headers the client sent. *)
Theorem proxy_ready_headers
    (outbound : Request -> Request) (SetURL : string -> Request -> Request)
    (answer : Request -> list WriterCall) (upstream : string)
    (v : View) (r : Request) :
  Ready (at_Ready v) (now v) = true ->
  exists out,
    forwarded (NewProxy outbound SetURL answer upstream v r) = [out] /\
    Header_Get "Authorization" (ReqHeader out) = "Bearer " +:+ Token (at_Token v) /\
    ReqHeader out !! "Authorization" = Some ["Bearer " +:+ Token (at_Token v)] /\
    ReqHeader out !! "User-Agent" = Some ["vscode-chat/dev"] /\
    ReqHeader out !! "Copilot-Integration-Id" = Some ["vscode-chat"] /\
    ReqHeader out !! "Editor-Version" = Some ["Neovim/0.11.0"] /\
    ReqHeader out !! "Editor-Plugin-Version" = Some ["copilot-chat/0.1.0"].
Proof.
  intros Hready.
  exists (Rewrite SetURL (at_Token v) upstream (outbound r)).
  rewrite NewProxy_ready by exact Hready.
  destruct (CustomHeaders_lookup (at_Token v)
              (ReqHeader (SetURL upstream (outbound r))))
    as (Hau & Hua & Hci & Hev & Hpv).
  destruct canonical_keys as (Ha & _).
  unfold Header_Get. rewrite Ha.
  change (ReqHeader (Rewrite SetURL (at_Token v) upstream (outbound r))) with
    (CustomHeaders (at_Token v) (ReqHeader (SetURL upstream (outbound r)))).
  rewrite Hau. cbn [forwarded].
  split; [reflexivity|]. split; [reflexivity|]. split; [reflexivity|].
  split; [exact Hua|]. split; [exact Hci|]. split; [exact Hev|exact Hpv].
Qed.

(** ** The access gate *)

(** A request that presents the configured token goes on to the next
    handler. *)
Lemma verifyAccessToken_pass (token : string) (next : Handler) (r : Request) :
  Header_Get "Authorization" (ReqHeader r) = "Bearer " +:+ token ->
  verifyAccessToken token next r = next r.
Proof.
  intros H. unfold verifyAccessToken.
  case_bool_decide; [reflexivity|].
  rewrite (bool_decide_true _ H). reflexivity.
Qed.

(** C3. With a protecting token configured, a request whose
    [Authorization] header is not exactly "Bearer " followed by that token
    gets 401 Unauthorized, whatever the next handler is, and nothing goes
    upstream; with no token configured the middleware is the next handler
    itself. *)
Theorem access_gate (token : string) (next : Handler) (r : Request) :
  (token <> "" ->
   Header_Get "Authorization" (ReqHeader r) <> "Bearer " +:+ token ->
   verifyAccessToken token next r
     = http_Error "Invalid access token" StatusUnauthorized /\
   written (verifyAccessToken token next r)
     = [WriteHeader 401; Write ("Invalid access token" +:+ newline)] /\
   forwarded (verifyAccessToken token next r) = []) /\
  (token = "" -> verifyAccessToken token next = next).
Proof.
  unfold verifyAccessToken. split.
  - intros Htok Hne. rewrite (bool_decide_false _ Htok).
    rewrite (bool_decide_false _ Hne).
    split; [|split]; reflexivity.
  - intros ->. reflexivity.
Qed.

(** ** The status recorder *)

(** Once a status is held, every further call leaves it alone and no
    [WriteHeader] is passed on. *)
Lemma Tracker_run_latched (cs : list WriterCall) (s : StatusCodeTracker) :
  code s <> 0 ->
  code (Tracker_run cs s) = code s /\
  List.filter is_WriteHeader (under (Tracker_run cs s))
    = List.filter is_WriteHeader (under s).
Proof.
  revert s. induction cs as [|c cs IH]; intros s Hs; [split; reflexivity|].
  apply Z.eqb_neq in Hs as Hb.
  assert (code (Tracker_call s c) = code s /\
          List.filter is_WriteHeader (under (Tracker_call s c))
            = List.filter is_WriteHeader (under s)) as [Hc Hu].
  { destruct c as [n|b]; cbn [Tracker_call].
    - unfold Tracker_WriteHeader. rewrite Hb. split; reflexivity.
    - unfold Tracker_Write. rewrite Hb. cbn [code under]. split; [reflexivity|].
      rewrite List.filter_app. cbn. apply app_nil_r. }
  change (Tracker_run (c :: cs) s) with (Tracker_run cs (Tracker_call s c)).
  destruct (IH (Tracker_call s c)) as [IHc IHu]; [by rewrite Hc|].
  rewrite IHc, IHu. by split.
Qed.

(** The first call on a fresh recorder. *)
Lemma Tracker_first_call (c : WriterCall) :
  code (Tracker_call TrackStatusCode c) = status_of c /\
  under (Tracker_call TrackStatusCode c) = [c].
Proof. destruct c; split; reflexivity. Qed.

(** C8. The recorder holds the status of the first call made on it,
    whatever calls follow; a later [WriteHeader] changes nothing; of all
    the [WriteHeader] calls the wrapped writer gets at most the first
    call's.  Writing 200 and then 500 leaves 200 recorded and one
    [WriteHeader 200] passed on.  (Status codes are non-zero: [net/http]
    accepts 100 to 999 only.) *)
Theorem tracker_first_status (c : WriterCall) (rest : list WriterCall) :
  status_of c <> 0 ->
  code (Tracker_run (c :: rest) TrackStatusCode) = status_of c /\
  List.filter is_WriteHeader (under (Tracker_run (c :: rest) TrackStatusCode))
    = List.filter is_WriteHeader [c] /\
  (forall n, Tracker_WriteHeader n (Tracker_run (c :: rest) TrackStatusCode)
             = Tracker_run (c :: rest) TrackStatusCode) /\
  Tracker_run [WriteHeader 200; WriteHeader 500] TrackStatusCode
    = mkTracker [WriteHeader 200] 200.
Proof.
  intros Hc.
  destruct (Tracker_first_call c) as [Hcode Hunder].
  change (Tracker_run (c :: rest) TrackStatusCode)
    with (Tracker_run rest (Tracker_call TrackStatusCode c)).
  destruct (Tracker_run_latched rest (Tracker_call TrackStatusCode c))
    as [Hl Hf]; [by rewrite Hcode|].
  rewrite Hl, Hf, Hcode, Hunder.
  split; [reflexivity|]. split; [reflexivity|]. split; [|reflexivity].
  intros n. unfold Tracker_WriteHeader. rewrite Hl, Hcode.
  apply Z.eqb_neq in Hc. by rewrite Hc.
Qed.

(** ** Decoding the token payload *)

Lemma store_int64_ok (v : json) (old : Z) :
  snd (store_int64 v old) = false <-> int64_value v.
Proof.
  unfold int64_value. split.
  - destruct v as [|b|[z|]|s|es|ms]; cbn; try discriminate; [by left|].
    destruct ((min_int64 <=? z) && (z <=? max_int64)) eqn:Hr; [|discriminate].
    intros _. right. exists z. split; [reflexivity|].
    apply andb_prop in Hr as [H1 H2]. lia.
  - intros [->|(z & -> & Hz)]; [reflexivity|]. cbn.
    assert ((min_int64 <=? z) && (z <=? max_int64) = true) as ->; [|reflexivity].
    apply andb_true_intro. split; lia.
Qed.

Lemma store_string_ok (v : json) (old : string) :
  snd (store_string v old) = false <-> string_value v.
Proof.
  unfold string_value. split.
  - destruct v as [|b|n|s|es|ms]; cbn; try discriminate; [by left|].
    intros _. right. by exists s.
  - intros [->|(s & ->)]; reflexivity.
Qed.

(** A member keeps the decode free of errors exactly when there was none
    before and the member fits. *)
Lemma APIToken_member_ok (tok : APIToken) (saved : option unmarshal_error)
    (m : string * json) :
  snd (APIToken_member (tok, saved) m) = None <-> saved = None /\ member_fits m.
Proof.
  unfold APIToken_member, member_fits.
  destruct (find_field APIToken_fields (fst m)) as [[| |]|].
  - pose proof (store_int64_ok (snd m) (ExpiresAt tok)) as H.
    destruct (store_int64 (snd m) (ExpiresAt tok)) as [x [|]]; cbn in *.
    + split; [destruct saved; discriminate|]. intros [_ Hf]. apply H in Hf. discriminate.
    + split; [intros ->; split; [reflexivity|by apply H]|by intros [-> _]].
  - pose proof (store_int64_ok (snd m) (RefreshIn tok)) as H.
    destruct (store_int64 (snd m) (RefreshIn tok)) as [x [|]]; cbn in *.
    + split; [destruct saved; discriminate|]. intros [_ Hf]. apply H in Hf. discriminate.
    + split; [intros ->; split; [reflexivity|by apply H]|by intros [-> _]].
  - pose proof (store_string_ok (snd m) (Token_ tok)) as H.
    destruct (store_string (snd m) (Token_ tok)) as [x [|]]; cbn in *.
    + split; [destruct saved; discriminate|]. intros [_ Hf]. apply H in Hf. discriminate.
    + split; [intros ->; split; [reflexivity|by apply H]|by intros [-> _]].
  - cbn. tauto.
Qed.

Lemma APIToken_members_ok (members : list (string * json))
    (st : APIToken * option unmarshal_error) :
  snd (fold_left APIToken_member members st) = None
  <-> snd st = None /\ Forall member_fits members.
Proof.
  revert st. induction members as [|m ms IH]; intros [tok saved]; cbn [fold_left].
  - split; [intros H; split; [exact H|constructor]|tauto].
  - rewrite IH.
    destruct (APIToken_member (tok, saved) m) as [tok' saved'] eqn:Hm.
    pose proof (APIToken_member_ok tok saved m) as H. rewrite Hm in H.
    cbn [snd] in *. rewrite Forall_cons. tauto.
Qed.

Lemma Unmarshal_APIToken_ok (data : payload) (tok : APIToken) :
  snd (Unmarshal_APIToken data tok) = None <-> decodes data.
Proof.
  unfold decodes. destruct data as [raw|v]; cbn.
  - split; [discriminate|]. intros [H|(ms & H & _)]; discriminate.
  - destruct v as [|b|n|s|es|ms]; cbn;
      try (split; [discriminate|intros [H|(ms' & H & _)]; discriminate]).
    + split; [by left|reflexivity].
    + rewrite APIToken_members_ok. cbn [snd]. split.
      * intros [_ H]. right. by exists ms.
      * intros [H|(ms' & H & Hf)]; [discriminate|].
        injection H as <-. by split.
Qed.

(** ** One exchange *)

Lemma wrap64_small (z : Z) : min_int64 <= z <= max_int64 -> wrap64 z = z.
Proof.
  unfold min_int64, max_int64, wrap64. intros H.
  rewrite Z.mod_small; lia.
Qed.

(** Every exchange ends in exactly one of the two ways. *)
Lemma exchange_cases (rt : RoundTrip) :
  failed_exchange rt \/ exists tok, successful_exchange rt tok.
Proof.
  destruct rt as [| |c data]; [left; constructor..|].
  destruct (Z.eq_dec c 200) as [->|Hc]; [|left; by constructor].
  destruct (Unmarshal_APIToken data zero_APIToken) as [tok [e|]] eqn:Hu.
  - left. apply (failed_decode data e). by rewrite Hu.
  - right. exists tok, data. by split.
Qed.

Lemma exchange_not_both (rt : RoundTrip) (tok : APIToken) :
  failed_exchange rt -> successful_exchange rt tok -> False.
Proof.
  intros Hf (data & -> & Hu). inversion Hf as [| |c d Hc|d e He]; subst.
  - by apply Hc.
  - rewrite Hu in He. discriminate.
Qed.

Lemma refresh_failed (t : TokenSource) (rt : RoundTrip) :
  failed_exchange rt ->
  exists tok e,
    refresh t rt zero_APIToken = ([ClientDo (refresh_request t)], tok, Some e).
Proof.
  intros Hf. unfold refresh. destruct Hf as [| |c data Hc|data e He].
  - by eexists _, _.
  - by eexists _, _.
  - apply Z.eqb_neq in Hc. rewrite Hc. cbn [negb]. by eexists _, _.
  - cbn [Z.eqb Pos.eqb negb].
    destruct (Unmarshal_APIToken data zero_APIToken) as [tok' o].
    cbn [snd] in He. subst o. by eexists _, _.
Qed.

Lemma refresh_succeeded (t : TokenSource) (rt : RoundTrip) (tok : APIToken) :
  successful_exchange rt tok ->
  refresh t rt zero_APIToken = ([ClientDo (refresh_request t)], tok, None).
Proof.
  intros (data & -> & Hu). unfold refresh. cbn [Z.eqb Pos.eqb negb].
  by rewrite Hu.
Qed.

(** ** One pass of the refresh loop *)

Lemma ts_after_select (w : Wake) (l : Loop) : ts (after_select w l) = ts l.
Proof. by destruct w. Qed.

Lemma stopped_after_select (w : Wake) (l : Loop) :
  w <> CtxDone -> stopped (after_select w l) = stopped l.
Proof. by destruct w. Qed.

(** A pass that finds the token valid does nothing beyond the assignment
    of the [select] case. *)
Lemma Start_iter_skip (i : Iter) (l : Loop) :
  Ready (ts l) (now_ready i) = true ->
  Start_iter i l = (after_select (wake i) l, []).
Proof.
  intros H. unfold Start_iter. rewrite ts_after_select, H. by destruct (wake i).
Qed.

Lemma Start_iter_failed (i : Iter) (l : Loop) :
  attempts i l -> failed_exchange (exchange i) ->
  Start_iter i l =
    (mkLoop (ts l) (timeout (after_select (wake i) l))
       (Some (now_after i + 5 * Second))
       (first (after_select (wake i) l)) (stopped l),
     [ClientDo (refresh_request (ts l)); SlogError "failed to refresh token"]).
Proof.
  intros [Hw Hr] Hf. unfold Start_iter.
  rewrite !ts_after_select, Hr, (stopped_after_select _ _ Hw).
  destruct (refresh_failed (ts l) _ Hf) as (tok & e & ->).
  by destruct (wake i).
Qed.

Lemma Start_iter_succeeded (i : Iter) (l : Loop) (tok : APIToken) :
  attempts i l -> successful_exchange (exchange i) tok ->
  Start_iter i l =
    (mkLoop (mkTokenSource tok (oauthToken (ts l)))
       (Some (now_after i + seconds (wrap64 (RefreshIn tok - 10))))
       (retry (after_select (wake i) l))
       (first (after_select (wake i) l)) (stopped l),
     [ClientDo (refresh_request (ts l)); SlogInfo "token refreshed"]).
Proof.
  intros [Hw Hr] Hs. unfold Start_iter.
  rewrite !ts_after_select, Hr, (stopped_after_select _ _ Hw).
  rewrite (refresh_succeeded (ts l) _ tok Hs).
  by destruct (wake i).
Qed.

(** A pass makes at most one exchange, and makes it exactly when it is an
    attempt. *)
Lemma Start_iter_exchanges (i : Iter) (l : Loop) :
  (attempts i l /\
   exchanges (snd (Start_iter i l)) = [refresh_request (ts l)]) \/
  (~ attempts i l /\ snd (Start_iter i l) = []).
Proof.
  destruct (Ready (ts l) (now_ready i)) eqn:Hr.
  - right. split; [intros [_ H]; congruence|]. by rewrite Start_iter_skip.
  - destruct (decide (wake i = CtxDone)) as [Hw|Hw].
    + right. split; [by intros [H _]|]. unfold Start_iter. by rewrite Hw.
    + left. assert (attempts i l) as Ha by done. split; [done|].
      destruct (exchange_cases (exchange i)) as [Hf|[tok Hs]].
      * by rewrite Start_iter_failed.
      * by rewrite (Start_iter_succeeded i l tok).
Qed.


(** A pass whose exchange would fail leaves the store as it is, whether or
    not the exchange is made. *)
Lemma Start_iter_failed_store (i : Iter) (l : Loop) :
  failed_exchange (exchange i) -> ts (fst (Start_iter i l)) = ts l.
Proof.
  intros Hf. destruct (Ready (ts l) (now_ready i)) eqn:Hr.
  - rewrite Start_iter_skip by done. apply ts_after_select.
  - destruct (decide (wake i = CtxDone)) as [Hw|Hw].
    + unfold Start_iter. rewrite Hw. reflexivity.
    + by rewrite Start_iter_failed.
Qed.

(** While the token stays valid, a run makes no exchange and leaves the
    store alone. *)
Lemma Start_run_all_ready (passes : list Iter) (l : Loop) :
  Forall (fun i => Ready (ts l) (now_ready i) = true) passes ->
  snd (Start_run passes l) = [] /\ ts (fst (Start_run passes l)) = ts l.
Proof.
  revert l. induction passes as [|i rest IH]; intros l Hall; [by split|].
  apply Forall_cons in Hall as [Hi Hrest]. cbn [Start_run].
  destruct (stopped l); [by split|].
  rewrite Start_iter_skip by done.
  destruct (IH (after_select (wake i) l)) as [Htr Hts].
  { by rewrite ts_after_select. }
  destruct (Start_run rest (after_select (wake i) l)) as [l2 tr2].
  cbn [fst snd] in *. subst tr2. split; [reflexivity|].
  by rewrite Hts, ts_after_select.
Qed.

(** C9. A pass of the loop that finds the stored token valid is skipped:
    it makes no exchange and leaves the store alone, whichever case of the
    [select] woke it; when the refresh timer woke it, the timer is left
    [nil].  A pass makes an exchange only when the token is not valid. *)
Theorem no_exchange_while_ready (i : Iter) (l : Loop) :
  (Ready (ts l) (now_ready i) = true ->
   Start_iter i l = (after_select (wake i) l, []) /\
   exchanges (snd (Start_iter i l)) = [] /\
   ts (fst (Start_iter i l)) = ts l /\
   (wake i = TimeoutFired -> timeout (fst (Start_iter i l)) = None)) /\
  (exchanges (snd (Start_iter i l)) <> [] ->
   Ready (ts l) (now_ready i) = false).
Proof.
  split.
  - intros Hr. rewrite Start_iter_skip by done. cbn [fst snd].
    split; [reflexivity|]. split; [reflexivity|].
    split; [apply ts_after_select|]. by intros ->.
  - intros Hx. destruct (Start_iter_exchanges i l) as [[[_ Hr] _]|[_ Hnil]];
      [done|]. rewrite Hnil in Hx. by destruct Hx.
Qed.


(** ** After a successful exchange *)

Lemma seconds_small (n : Z) :
  -9223372036 <= n <= 9223372036 -> seconds (wrap64 n) = n * Second.
Proof.
  intros H. unfold seconds.
  rewrite (wrap64_small n) by (unfold min_int64, max_int64; lia).
  apply wrap64_small. unfold min_int64, max_int64, Second. lia.
Qed.

(** Beyond 9223372046 the product wraps: a [refresh_in] of 9223372047
    gives a negative delay. *)
Example refresh_delay_wraps : seconds (wrap64 (9223372047 - 10)) < 0.
Proof. vm_compute. reflexivity. Qed.

(** In the revision without the status recorder [refresh] arms the same
    timer. *)
Lemma Rev0_start_iter_succeeded (w : Rev0.Wake) (data : payload) (now : Z)
    (l : Rev0.Loop) (tok : Rev0.APIToken) :
  w <> Rev0.CtxDone ->
  Rev0.Unmarshal_APIToken data Rev0.zero_APIToken = (tok, None) ->
  Rev0.apiToken (Rev0.ts (fst (Rev0.start_iter w (Response 200 data) now l))) = tok /\
  Rev0.timeout (fst (Rev0.start_iter w (Response 200 data) now l))
    = time_After now (seconds (wrap64 (Rev0.RefreshIn tok - 10))).
Proof.
  intros Hw Hu. unfold Rev0.start_iter, Rev0.refresh.
  cbn [Z.eqb Pos.eqb negb]. rewrite Hu.
  destruct w; [by destruct Hw|..]; split; reflexivity.
Qed.

(** C5, as the code has it. After a successful exchange the store holds
    the new token and the refresh timer is armed for the instant of the
    [time.After] call plus [d], where [d] is the [int64] nanosecond
    product [time.Duration(RefreshIn - 10) * time.Second], taken with
    wrap-around and with no least delay.  For [RefreshIn] from -9223372026
    to 9223372046, where the product does not wrap, [d] is
    [RefreshIn - 10] seconds: it is positive exactly when [RefreshIn]
    exceeds 10, and for a [RefreshIn] of 10 or less the timer is due at
    once.  The revision without the status recorder arms the same
    timer. *)
Theorem successful_exchange_arms_timer :
  (forall (i : Iter) (l : Loop) (tok : APIToken),
     attempts i l -> successful_exchange (exchange i) tok ->
     apiToken (ts (fst (Start_iter i l))) = tok /\
     timeout (fst (Start_iter i l))
       = time_After (now_after i) (seconds (wrap64 (RefreshIn tok - 10))) /\
     (-9223372026 <= RefreshIn tok <= 9223372046 ->
      timeout (fst (Start_iter i l))
        = Some (now_after i + (RefreshIn tok - 10) * Second) /\
      (0 < seconds (wrap64 (RefreshIn tok - 10)) <-> 10 < RefreshIn tok) /\
      (RefreshIn tok <= 10 ->
       fired (timeout (fst (Start_iter i l))) (now_after i) = true))) /\
  (forall (w : Rev0.Wake) (data : payload) (now : Z) (l : Rev0.Loop)
          (tok : Rev0.APIToken),
     w <> Rev0.CtxDone ->
     Rev0.Unmarshal_APIToken data Rev0.zero_APIToken = (tok, None) ->
     Rev0.apiToken (Rev0.ts (fst (Rev0.start_iter w (Response 200 data) now l))) = tok /\
     Rev0.timeout (fst (Rev0.start_iter w (Response 200 data) now l))
       = time_After now (seconds (wrap64 (Rev0.RefreshIn tok - 10)))).
Proof.
  split; [|exact Rev0_start_iter_succeeded].
  intros i l tok Ha Hs.
  rewrite (Start_iter_succeeded i l tok Ha Hs). cbn [fst ts apiToken timeout].
  split; [reflexivity|]. split; [reflexivity|]. intros Hrange.
  rewrite seconds_small by lia. unfold Second.
  split; [reflexivity|]. split; [lia|].
  intros Hle. cbn [fired]. apply Z.leb_le. lia.
Qed.

(** C6, as the code has it. After a successful exchange the store holds
    the expiry the endpoint sent, whatever it is; from then on [Ready] is
    true at an instant exactly when the instant is before that expiry, so
    it is true right after the write exactly when the expiry sent is still
    ahead, and it is false at and after the expiry.  The zero token is not
    valid at any instant from the epoch on. *)
Theorem ready_follows_stored_expiry (i : Iter) (l : Loop) (tok : APIToken) :
  attempts i l -> successful_exchange (exchange i) tok ->
  apiToken (ts (fst (Start_iter i l))) = tok /\
  (forall t, Ready (ts (fst (Start_iter i l))) t = true
             <-> t < ExpiresAt tok * Second) /\
  (forall t, ExpiresAt tok * Second <= t ->
             Ready (ts (fst (Start_iter i l))) t = false) /\
  (forall oauth t, 0 <= t -> Ready (NewTokenSource oauth) t = false).
Proof.
  intros Ha Hs. rewrite (Start_iter_succeeded i l tok Ha Hs). cbn [fst ts].
  split; [reflexivity|]. split; [|split].
  - intros t. apply Ready_iff.
  - intros t Ht. by apply Ready_false_iff.
  - intros oauth t Ht. apply Ready_false_iff. cbn. lia.
Qed.

(** A member that does not name a field, or whose value is [null], leaves
    that field as it is. *)
Lemma APIToken_member_keeps (st : APIToken * option unmarshal_error)
    (m : string * json) :
  (find_field APIToken_fields (fst m) <> Some FToken \/ snd m = JNull ->
   Token_ (fst (APIToken_member st m)) = Token_ (fst st)) /\
  (find_field APIToken_fields (fst m) <> Some FExpiresAt \/ snd m = JNull ->
   ExpiresAt (fst (APIToken_member st m)) = ExpiresAt (fst st)) /\
  (find_field APIToken_fields (fst m) <> Some FRefreshIn \/ snd m = JNull ->
   RefreshIn (fst (APIToken_member st m)) = RefreshIn (fst st)).
Proof.
  destruct st as [tok saved]. unfold APIToken_member.
  destruct (find_field APIToken_fields (fst m)) as [[| |]|];
    destruct (snd m) as [|b|[z|]|s|es|ms]; cbn [store_int64 store_string];
    try destruct ((min_int64 <=? z) && (z <=? max_int64));
    cbn [fst Token_ ExpiresAt RefreshIn];
    (split; [|split]); intros [H|H];
    first [reflexivity | discriminate H | by destruct H].
Qed.

Lemma APIToken_members_keep (members : list (string * json))
    (st : APIToken * option unmarshal_error) :
  (Forall (fun m => find_field APIToken_fields (fst m) <> Some FToken
                    \/ snd m = JNull) members ->
   Token_ (fst (fold_left APIToken_member members st)) = Token_ (fst st)) /\
  (Forall (fun m => find_field APIToken_fields (fst m) <> Some FExpiresAt
                    \/ snd m = JNull) members ->
   ExpiresAt (fst (fold_left APIToken_member members st)) = ExpiresAt (fst st)) /\
  (Forall (fun m => find_field APIToken_fields (fst m) <> Some FRefreshIn
                    \/ snd m = JNull) members ->
   RefreshIn (fst (fold_left APIToken_member members st)) = RefreshIn (fst st)).
Proof.
  revert st. induction members as [|m ms IH]; intros st.
  { repeat split. }
  cbn [fold_left]. destruct (IH (APIToken_member st m)) as (IH1 & IH2 & IH3).
  destruct (APIToken_member_keeps st m) as (K1 & K2 & K3).
  split; [|split]; intros Hall; apply Forall_cons in Hall as [Hm Hrest].
  - rewrite IH1 by exact Hrest. by apply K1.
  - rewrite IH2 by exact Hrest. by apply K2.
  - rewrite IH3 by exact Hrest. by apply K3.
Qed.

(** C7, as the code has it. A 200 response is accepted exactly when its
    body is [null] or a JSON object in which every member whose key names
    [token], [expires_at] or [refresh_in] (exactly or ignoring case) has a
    value that fits: a string or [null] for [token], an integer literal
    within [int64] or [null] for the other two.  Every other body (not
    JSON, a value other than an object or [null], a field given a value
    that does not fit) fails to decode, and then the store is left alone.
    No field has to be present: a field that no member names, or that is
    only given [null], keeps its zero value, and the empty object yields
    the zero token. *)
Theorem token_payload_decoding (data : payload) :
  (~ decodes data ->
   failed_exchange (Response 200 data) /\
   forall i l, exchange i = Response 200 data ->
               ts (fst (Start_iter i l)) = ts l) /\
  (decodes data <-> exists tok, successful_exchange (Response 200 data) tok) /\
  (forall raw, ~ decodes (Invalid raw)) /\
  successful_exchange (Response 200 (Valid (JObject []))) zero_APIToken /\
  (forall members,
     (Forall (fun m => find_field APIToken_fields (fst m) <> Some FToken
                       \/ snd m = JNull) members ->
      Token_ (fst (Unmarshal_APIToken (Valid (JObject members)) zero_APIToken))
        = "") /\
     (Forall (fun m => find_field APIToken_fields (fst m) <> Some FExpiresAt
                       \/ snd m = JNull) members ->
      ExpiresAt (fst (Unmarshal_APIToken (Valid (JObject members)) zero_APIToken))
        = 0) /\
     (Forall (fun m => find_field APIToken_fields (fst m) <> Some FRefreshIn
                       \/ snd m = JNull) members ->
      RefreshIn (fst (Unmarshal_APIToken (Valid (JObject members)) zero_APIToken))
        = 0)).
Proof.
  split; [|split; [|split; [|split]]].
  - intros Hn.
    assert (failed_exchange (Response 200 data)) as Hf.
    { destruct (snd (Unmarshal_APIToken data zero_APIToken)) as [e|] eqn:He.
      - by apply (failed_decode data e).
      - by apply Unmarshal_APIToken_ok in He. }
    split; [exact Hf|]. intros i l Hi. apply Start_iter_failed_store.
    by rewrite Hi.
  - split.
    + intros Hd. apply (Unmarshal_APIToken_ok data zero_APIToken) in Hd.
      destruct (Unmarshal_APIToken data zero_APIToken) as [tok o] eqn:Hu.
      cbn in Hd. subst o. by exists tok, data.
    + intros (tok & data' & Heq & Hu). injection Heq as <-.
      apply (Unmarshal_APIToken_ok data zero_APIToken). by rewrite Hu.
  - intros raw Hd. by apply (Unmarshal_APIToken_ok _ zero_APIToken) in Hd.
  - by eexists.
  - intros members. cbn [Unmarshal_APIToken].
    exact (APIToken_members_keep members (zero_APIToken, None)).
Qed.

(** ** Credential discovery *)

Lemma range_order_map_to_list (cfg : gmap string TokenObject) :
  range_order cfg (map_to_list cfg).
Proof. unfold range_order. reflexivity. Qed.

Lemma range_order_swap_first (cfg : gmap string TokenObject) :
  range_order cfg (swap_first (map_to_list cfg)).
Proof.
  unfold range_order. destruct (map_to_list cfg) as [|a [|b rest]]; cbn;
    [reflexivity..|]. apply perm_swap.
Qed.

(** C10. When [apps.json] decodes to more than one entry, a call of
    [parseOAuthToken] may return the [oauth_token] of one entry and may
    return that of another entry, for the same file; when the two tokens
    differ, no function of the file gives the result. *)
Theorem parseOAuthToken_not_deterministic (data : payload)
    (cfg : gmap string TokenObject) :
  Unmarshal_cfg data ∅ = (cfg, None) ->
  (1 < size cfg)%nat ->
  exists k1 o1 k2 o2,
    k1 <> k2 /\ cfg !! k1 = Some o1 /\ cfg !! k2 = Some o2 /\
    parseOAuthToken (Some data) (ParseOk (OAuthToken o1)) /\
    parseOAuthToken (Some data) (ParseOk (OAuthToken o2)) /\
    (OAuthToken o1 <> OAuthToken o2 ->
     ~ exists f : option payload -> parse_result,
         forall res, parseOAuthToken (Some data) res -> res = f (Some data)).
Proof.
  intros Hcfg Hsize.
  pose proof (length_map_to_list cfg) as Hlen.
  pose proof (NoDup_fst_map_to_list cfg) as Hnd.
  destruct (map_to_list cfg) as [|[k1 o1] [|[k2 o2] rest]] eqn:Hl;
    cbn in Hlen; [lia..|].
  assert (parseOAuthToken (Some data) (ParseOk (OAuthToken o1))) as H1.
  { exists map_to_list. split; [apply range_order_map_to_list|].
    unfold parseOAuthToken_in. rewrite Hcfg, Hl. reflexivity. }
  assert (parseOAuthToken (Some data) (ParseOk (OAuthToken o2))) as H2.
  { exists (fun c => swap_first (map_to_list c)).
    split; [apply range_order_swap_first|].
    unfold parseOAuthToken_in. rewrite Hcfg, Hl. reflexivity. }
  exists k1, o1, k2, o2. split; [|split; [|split; [|split; [|split]]]].
  - cbn in Hnd. apply NoDup_cons in Hnd as [Hnot _].
    intros ->. apply Hnot. left.
  - apply elem_of_map_to_list. rewrite Hl. left.
  - apply elem_of_map_to_list. rewrite Hl. right. left.
  - exact H1.
  - exact H2.
  - intros Hne [f Hf]. apply Hne.
    pose proof (Hf _ H1) as E1. pose proof (Hf _ H2) as E2.
    rewrite <- E2 in E1. by injection E1.
Qed.

(** ** When the loop wakes *)

(** [Start] makes its first pass at once, and [first] wakes it only
    once. *)
Lemma first_wakes_once (t : TokenSource) (i : Iter) (now : Z) :
  wake i = FirstFired ->
  can_wake FirstFired false false now (Start_init t) = true /\
  can_wake FirstFired false false now (fst (Start_iter i (Start_init t))) = false.
Proof.
  intros Hw. split; [reflexivity|].
  destruct (Start_iter_exchanges i (Start_init t)) as [[Ha _]|[Hn _]].
  - destruct (exchange_cases (exchange i)) as [Hf|[tok Hs]].
    + rewrite (Start_iter_failed i _ Ha Hf), Hw. reflexivity.
    + rewrite (Start_iter_succeeded i _ tok Ha Hs), Hw. reflexivity.
  - destruct (Ready (ts (Start_init t)) (now_ready i)) eqn:Hr.
    + rewrite Start_iter_skip by exact Hr. rewrite Hw. reflexivity.
    + destruct Hn. split; [rewrite Hw; discriminate|exact Hr].
Qed.

(** Once the refresh timer has woken a pass that was skipped, only the
    ticker, the retry timer or the context wake the loop again. *)
Lemma skipped_refresh_leaves_no_timer (i : Iter) (l : Loop) (now : Z) :
  wake i = TimeoutFired -> Ready (ts l) (now_ready i) = true ->
  can_wake TimeoutFired false false now (fst (Start_iter i l)) = false.
Proof.
  intros Hw Hr. rewrite Start_iter_skip by exact Hr. rewrite Hw. reflexivity.
Qed.

(** ** The chain of handlers *)

Lemma applyMiddlewares_two (h : Handler) (m1 m2 : Middleware) :
  applyMiddlewares h [m1; m2] = m1 (m2 h).
Proof. reflexivity. Qed.

(** The scenario of the specification, end to end: the endpoint issues
    "t1" for 600 seconds; one second later [GET /foo] is sent upstream with
    [Authorization: Bearer t1] in place of the client's key, and 200 is
    logged. *)
Example scenario_forwarded :
  let i := mkIter FirstFired 0 (Response 200 (Valid (ex_token_json 600 600))) 0 in
  let t := ts (fst (Start_iter i (Start_init ex_ts))) in
  let out := NewProxy ex_outbound ex_SetURL ex_answer APIEndpoint
               (mkView t (1 * Second) t) ex_request in
  Ready t (1 * Second) = true /\
  (Header_Get "Authorization" ∘ ReqHeader) <$> forwarded out = ["Bearer t1"] /\
  (Path ∘ ReqURL) <$> forwarded out = ["/foo"] /\
  logStatus <$> logged out = [200].
Proof. vm_compute. repeat split. Qed.

(** * The specification's statements that the code does not meet *)

(** C5 fails as stated. The endpoint answers with [refresh_in] 5; the
    exchange succeeds and the token is stored, but the timer is armed 5
    seconds before the instant of the call: the delay is negative, and no
    positive least delay makes it the specification's
    [max(refreshAfterSeconds - 10, minimalPositiveDelay)]. *)
Lemma refresh_delay_not_clamped :
  let rt := Response 200 (Valid (ex_token_json 600 5)) in
  let i := mkIter FirstFired 0 rt 0 in
  let l' := fst (Start_iter i (Start_init ex_ts)) in
  successful_exchange rt (mkAPIToken 600 5 "t1") /\
  apiToken (ts l') = mkAPIToken 600 5 "t1" /\
  timeout l' = Some (now_after i + -5 * Second) /\
  ~ (exists m, 0 < m /\
       timeout l' = Some (now_after i
                          + spec_refresh_delay m (RefreshIn (apiToken (ts l'))))).
Proof.
  intros rt i l'.
  assert (successful_exchange rt (mkAPIToken 600 5 "t1")) as Hs.
  { exists (Valid (ex_token_json 600 5)). split; [reflexivity|].
    vm_compute. reflexivity. }
  assert (apiToken (ts l') = mkAPIToken 600 5 "t1") as Htok.
  { vm_compute. reflexivity. }
  assert (timeout l' = Some (now_after i + -5 * Second)) as Ht.
  { vm_compute. reflexivity. }
  split; [exact Hs|]. split; [exact Htok|]. split; [exact Ht|].
  intros (m & Hm & H). rewrite Ht, Htok in H. injection H as H.
  unfold spec_refresh_delay, RefreshIn, Second in H. lia.
Qed.

(** C6 fails as stated. The endpoint answers, at second 200, with an
    [expires_at] of 100; the exchange succeeds and the token is stored, but
    its expiry is not ahead of the write and [Ready] is false right after
    it. *)
Lemma stored_expiry_not_checked :
  let rt := Response 200 (Valid (ex_token_json 100 600)) in
  let i := mkIter FirstFired (200 * Second) rt (200 * Second) in
  let l' := fst (Start_iter i (Start_init ex_ts)) in
  successful_exchange rt (mkAPIToken 100 600 "t1") /\
  apiToken (ts l') = mkAPIToken 100 600 "t1" /\
  ~ (now_after i < ExpiresAt (apiToken (ts l')) * Second) /\
  Ready (ts l') (now_after i) = false.
Proof.
  intros rt i l'.
  assert (apiToken (ts l') = mkAPIToken 100 600 "t1") as Htok.
  { vm_compute. reflexivity. }
  split; [|split; [exact Htok|split]].
  - exists (Valid (ex_token_json 100 600)). split; [reflexivity|].
    vm_compute. reflexivity.
  - rewrite Htok. cbn. unfold Second. lia.
  - vm_compute. reflexivity.
Qed.

(** C7 fails as stated. A 200 response whose body is the object with a
    [token] member only has neither [expires_at] nor [refresh_in]; the
    exchange succeeds all the same and the token is stored, with the
    missing fields zero, over the token held before. *)
Lemma missing_fields_are_accepted :
  let data := Valid (JObject [("token", JString "t1")]) in
  let i := mkIter Tick (700 * Second) (Response 200 data) (700 * Second) in
  let l := mkLoop (mkTokenSource (mkAPIToken 600 600 "t0") "abc") None None false false in
  ~ spec_has_required_fields data /\
  successful_exchange (Response 200 data) (mkAPIToken 0 0 "t1") /\
  apiToken (ts (fst (Start_iter i l))) = mkAPIToken 0 0 "t1".
Proof.
  intros data i l. split; [|split].
  - intros (ms & tok & exp & ref & Hd & _ & He & _).
    injection Hd as <-. apply list_elem_of_singleton in He. discriminate.
  - exists data. split; [reflexivity|]. vm_compute. reflexivity.
  - vm_compute. reflexivity.
Qed.

(** * The theorems at concrete inputs *)

(** Before the first exchange, at the epoch: a request gets 503, in both
    revisions. *)
Lemma proxy_not_ready_503_witness :
  Ready (at_Ready (mkView ex_ts 0 ex_ts)) (now (mkView ex_ts 0 ex_ts)) = false /\
  NewProxy ex_outbound ex_SetURL ex_answer APIEndpoint (mkView ex_ts 0 ex_ts) ex_request
    = http_Error "Service not ready" StatusServiceUnavailable /\
  Rev0.ServeHTTP ex_outbound ex_SetURL ex_answer
    (Rev0.mkView (Rev0.NewTokenSource "abc") 0 (Rev0.NewTokenSource "abc")) ex_request
    = http_Error "Service not ready" StatusServiceUnavailable.
Proof.
  destruct (proxy_not_ready_503 ex_outbound ex_SetURL ex_answer APIEndpoint ex_request)
    as [Hnew Hold].
  split; [reflexivity|]. split.
  - apply (Hnew (mkView ex_ts 0 ex_ts)). reflexivity.
  - apply (Hold (Rev0.mkView (Rev0.NewTokenSource "abc") 0 (Rev0.NewTokenSource "abc"))).
    reflexivity.
Defined.

(** With the token "t1" valid, the client's own key is replaced. *)
Lemma proxy_ready_headers_witness :
  let t := mkTokenSource (mkAPIToken 600 600 "t1") "abc" in
  Ready (at_Ready (mkView t 0 t)) (now (mkView t 0 t)) = true /\
  exists out,
    forwarded (NewProxy ex_outbound ex_SetURL ex_answer APIEndpoint (mkView t 0 t) ex_request)
      = [out] /\
    Header_Get "Authorization" (ReqHeader out) = "Bearer " +:+ Token (at_Token (mkView t 0 t)) /\
    ReqHeader out !! "Authorization" = Some ["Bearer " +:+ Token (at_Token (mkView t 0 t))] /\
    ReqHeader out !! "User-Agent" = Some ["vscode-chat/dev"] /\
    ReqHeader out !! "Copilot-Integration-Id" = Some ["vscode-chat"] /\
    ReqHeader out !! "Editor-Version" = Some ["Neovim/0.11.0"] /\
    ReqHeader out !! "Editor-Plugin-Version" = Some ["copilot-chat/0.1.0"].
Proof.
  intros t. split; [reflexivity|].
  apply (proxy_ready_headers ex_outbound ex_SetURL ex_answer APIEndpoint
           (mkView t 0 t) ex_request).
  reflexivity.
Defined.

(** The gate with the token "s3cret" turns the sample request away; the
    gate with no token is the next handler. *)
Lemma access_gate_witness :
  ("s3cret" <> "" /\
   Header_Get "Authorization" (ReqHeader ex_request) <> "Bearer " +:+ "s3cret" /\
   verifyAccessToken "s3cret" ex_next ex_request
     = http_Error "Invalid access token" StatusUnauthorized) /\
  verifyAccessToken "" ex_next = ex_next.
Proof.
  assert ("s3cret" <> "") as H1 by discriminate.
  assert (Header_Get "Authorization" (ReqHeader ex_request) <> "Bearer " +:+ "s3cret")
    as H2 by (vm_compute; discriminate).
  split.
  - split; [exact H1|]. split; [exact H2|].
    exact (proj1 (proj1 (access_gate "s3cret" ex_next ex_request) H1 H2)).
  - exact (proj2 (access_gate "" ex_next ex_request) eq_refl).
Defined.


(** The scenario of the specification: the token "t1" with [refresh_in]
    600 arms the timer 590 seconds ahead, in both revisions. *)
Lemma successful_exchange_arms_timer_witness :
  let i := mkIter FirstFired 0 (Response 200 (Valid (ex_token_json 600 600))) 0 in
  (apiToken (ts (fst (Start_iter i (Start_init ex_ts)))) = mkAPIToken 600 600 "t1" /\
   timeout (fst (Start_iter i (Start_init ex_ts)))
     = time_After 0 (seconds (wrap64 (600 - 10)))) /\
  Rev0.timeout (fst (Rev0.start_iter Rev0.FirstFired
                       (Response 200 (Valid (ex_token_json 600 600))) 0
                       (Rev0.mkLoop (Rev0.NewTokenSource "abc") None None true false)))
    = time_After 0 (seconds (wrap64 (600 - 10))).
Proof.
  intros i.
  assert (attempts i (Start_init ex_ts)) as Ha.
  { split; [discriminate|reflexivity]. }
  assert (successful_exchange (exchange i) (mkAPIToken 600 600 "t1")) as Hs.
  { exists (Valid (ex_token_json 600 600)). split; [reflexivity|].
    vm_compute. reflexivity. }
  assert (Rev0.Unmarshal_APIToken (Valid (ex_token_json 600 600)) Rev0.zero_APIToken
          = (Rev0.mkAPIToken 600 600 "t1" (Rev0.mkEndpoints "" ""), None)) as Hu.
  { vm_compute. reflexivity. }
  assert (Rev0.FirstFired <> Rev0.CtxDone) as Hw by discriminate.
  destruct successful_exchange_arms_timer as [Hnew Hold].
  destruct (Hnew i (Start_init ex_ts) _ Ha Hs) as (Htok & Ht & _).
  split; [split; [exact Htok|exact Ht]|].
  exact (proj2 (Hold Rev0.FirstFired _ 0
                  (Rev0.mkLoop (Rev0.NewTokenSource "abc") None None true false)
                  _ Hw Hu)).
Defined.

Lemma ready_follows_stored_expiry_witness :
  let i := mkIter FirstFired 0 (Response 200 (Valid (ex_token_json 600 600))) 0 in
  apiToken (ts (fst (Start_iter i (Start_init ex_ts)))) = mkAPIToken 600 600 "t1" /\
  (Ready (ts (fst (Start_iter i (Start_init ex_ts)))) 0 = true
   <-> 0 < ExpiresAt (mkAPIToken 600 600 "t1") * Second).
Proof.
  intros i.
  assert (attempts i (Start_init ex_ts)) as Ha.
  { split; [discriminate|reflexivity]. }
  assert (successful_exchange (exchange i) (mkAPIToken 600 600 "t1")) as Hs.
  { exists (Valid (ex_token_json 600 600)). split; [reflexivity|].
    vm_compute. reflexivity. }
  destruct (ready_follows_stored_expiry i (Start_init ex_ts) _ Ha Hs)
    as (Htok & Hiff & _).
  split; [exact Htok|exact (Hiff 0)].
Defined.

(** A body that gives [expires_at] as a string does not decode. *)
Lemma token_payload_decoding_witness :
  let data := Valid (JObject [("token", JString "t1"); ("expires_at", JString "600")]) in
  ~ decodes data /\ failed_exchange (Response 200 data).
Proof.
  intros data.
  assert (~ decodes data) as Hn.
  { intros Hd. apply (Unmarshal_APIToken_ok data zero_APIToken) in Hd.
    vm_compute in Hd. discriminate. }
  split; [exact Hn|].
  exact (proj1 (proj1 (token_payload_decoding data) Hn)).
Defined.

Lemma tracker_first_status_witness :
  status_of (WriteHeader 200) <> 0 /\
  code (Tracker_run (WriteHeader 200 :: [WriteHeader 500]) TrackStatusCode) = 200.
Proof.
  assert (status_of (WriteHeader 200) <> 0) as H by (cbn; lia).
  split; [exact H|].
  exact (proj1 (tracker_first_status (WriteHeader 200) [WriteHeader 500] H)).
Defined.

(** The refresh timer fires 590 seconds in, while the token is good until
    second 600: no exchange is made and the timer is left [nil]. *)
Lemma no_exchange_while_ready_witness :
  let l := mkLoop (mkTokenSource (mkAPIToken 600 600 "t1") "abc")
             (Some (590 * Second)) None false false in
  let i := mkIter TimeoutFired (590 * Second) DoFailed (590 * Second) in
  Ready (ts l) (now_ready i) = true /\
  exchanges (snd (Start_iter i l)) = [] /\
  timeout (fst (Start_iter i l)) = None.
Proof.
  intros l i.
  assert (Ready (ts l) (now_ready i) = true) as Hr by reflexivity.
  destruct (proj1 (no_exchange_while_ready i l) Hr) as (_ & Hx & _ & Ht).
  split; [exact Hr|]. split; [exact Hx|]. exact (Ht eq_refl).
Defined.

(** A file with two entries may yield either entry's token. *)
Lemma parseOAuthToken_not_deterministic_witness :
  parseOAuthToken (Some ex_apps) (ParseOk "gho_1") /\
  parseOAuthToken (Some ex_apps) (ParseOk "gho_2").
Proof.
  assert (Unmarshal_cfg ex_apps ∅
          = (fst (Unmarshal_cfg ex_apps ∅), None)) as Hcfg.
  { vm_compute. reflexivity. }
  assert (1 < size (fst (Unmarshal_cfg ex_apps ∅)))%nat as Hsize.
  { vm_compute. lia. }
  destruct (parseOAuthToken_not_deterministic ex_apps _ Hcfg Hsize)
    as (k1 & o1 & k2 & o2 & Hne & Hk1 & Hk2 & H1 & H2 & _).
  assert (forall k o, fst (Unmarshal_cfg ex_apps ∅) !! k = Some o ->
            OAuthToken o = "gho_1" \/ OAuthToken o = "gho_2") as Hin.
  { intros k o Hko. apply elem_of_map_to_list in Hko.
    vm_compute in Hko. apply elem_of_cons in Hko as [Hko|Hko].
    - injection Hko as _ ->. by left.
    - apply list_elem_of_singleton in Hko. injection Hko as _ ->. by right. }
  assert (forall k o k' o', fst (Unmarshal_cfg ex_apps ∅) !! k = Some o ->
            fst (Unmarshal_cfg ex_apps ∅) !! k' = Some o' ->
            OAuthToken o = OAuthToken o' -> k = k') as Hinj.
  { intros k o k' o' Hko Hko' Heq.
    apply elem_of_map_to_list in Hko, Hko'.
    vm_compute in Hko, Hko'.
    apply elem_of_cons in Hko as [Hko|Hko%list_elem_of_singleton];
      apply elem_of_cons in Hko' as [Hko'|Hko'%list_elem_of_singleton];
      injection Hko as -> ->; injection Hko' as -> ->;
      first [reflexivity | discriminate Heq]. }
  destruct (Hin _ _ Hk1) as [E1|E1], (Hin _ _ Hk2) as [E2|E2];
    rewrite E1 in H1; rewrite E2 in H2.
  - destruct Hne. apply (Hinj _ _ _ _ Hk1 Hk2). by rewrite E1, E2.
  - by split.
  - by split.
  - destruct Hne. apply (Hinj _ _ _ _ Hk1 Hk2). by rewrite E1, E2.
Defined.

(** * Further properties of the program *)

(** ** The validity window *)

(** X1. Once the stored token has expired it stays expired, and a token valid
    now was valid at every earlier instant: only a write to the store makes
    [Ready] true again. *)
Theorem expiry_is_permanent (t : TokenSource) (now now' : Z) :
  now <= now' ->
  (Ready t now = false -> Ready t now' = false) /\
  (Ready t now' = true -> Ready t now = true).
Proof.
  intros Hle. split.
  - rewrite !Ready_false_iff. lia.
  - rewrite !Ready_iff. lia.
Qed.

(** ** Headers *)

(** X2. Stamping the headers again, with whatever token, leaves no trace of the
    earlier stamp: the result is that of the later stamp alone. *)
Theorem CustomHeaders_overrides (t1 t2 : TokenSource) (h : Header) :
  CustomHeaders t2 (CustomHeaders t1 h) = CustomHeaders t2 h.
Proof.
  apply map_eq. intros k.
  destruct (CustomHeaders_lookup t2 (CustomHeaders t1 h)) as (A1 & A2 & A3 & A4 & A5).
  destruct (CustomHeaders_lookup t2 h) as (B1 & B2 & B3 & B4 & B5).
  destruct (decide (k = "Authorization")) as [->|N1]; [by rewrite A1, B1|].
  destruct (decide (k = "User-Agent")) as [->|N2]; [by rewrite A2, B2|].
  destruct (decide (k = "Copilot-Integration-Id")) as [->|N3]; [by rewrite A3, B3|].
  destruct (decide (k = "Editor-Version")) as [->|N4]; [by rewrite A4, B4|].
  destruct (decide (k = "Editor-Plugin-Version")) as [->|N5]; [by rewrite A5, B5|].
  assert (k ∉ ["Authorization"; "User-Agent"; "Copilot-Integration-Id";
               "Editor-Version"; "Editor-Plugin-Version"]) as Hk.
  { rewrite !elem_of_cons, elem_of_nil. tauto. }
  by rewrite !(CustomHeaders_other _ _ k Hk).
Qed.

(** X3. Every header of the outbound request other than the five stamped ones
    is the one the reverse proxy had put there. *)
Theorem proxy_keeps_other_headers
    (outbound : Request -> Request) (SetURL : string -> Request -> Request)
    (answer : Request -> list WriterCall) (upstream : string)
    (v : View) (r : Request) (k : string) :
  Ready (at_Ready v) (now v) = true ->
  k ∉ ["Authorization"; "User-Agent"; "Copilot-Integration-Id";
       "Editor-Version"; "Editor-Plugin-Version"] ->
  (fun out => ReqHeader out !! k)
    <$> forwarded (NewProxy outbound SetURL answer upstream v r)
  = [ReqHeader (SetURL upstream (outbound r)) !! k].
Proof.
  intros Hready Hk. rewrite NewProxy_ready by exact Hready.
  cbn [forwarded fmap list_fmap]. unfold Rewrite. cbn [ReqHeader].
  by rewrite (CustomHeaders_other _ _ k Hk).
Qed.

(** ** The chain of gate and proxy *)

(** X5. The access gate in front of the proxy handler, as [main] chains them:
    with a protecting token configured, a wrong [Authorization] gets 401
    even while the service is not ready; a right one gets 503 while it is
    not ready; and a right one under a valid token is forwarded with the
    stored token in [Authorization], so the protecting token itself never
    goes upstream. *)
Theorem gate_then_proxy
    (outbound : Request -> Request) (SetURL : string -> Request -> Request)
    (answer : Request -> list WriterCall) (upstream token : string)
    (v : View) (r : Request) :
  token <> "" ->
  let h := applyMiddlewares (NewProxy outbound SetURL answer upstream v)
             [verifyAccessToken token] in
  (Header_Get "Authorization" (ReqHeader r) <> "Bearer " +:+ token ->
   h r = http_Error "Invalid access token" StatusUnauthorized) /\
  (Header_Get "Authorization" (ReqHeader r) = "Bearer " +:+ token ->
   Ready (at_Ready v) (now v) = false ->
   h r = http_Error "Service not ready" StatusServiceUnavailable) /\
  (Header_Get "Authorization" (ReqHeader r) = "Bearer " +:+ token ->
   Ready (at_Ready v) (now v) = true ->
   (fun out => ReqHeader out !! "Authorization") <$> forwarded (h r)
   = [Some ["Bearer " +:+ Token (at_Token v)]]).
Proof.
  intros Htok h. subst h. cbn [applyMiddlewares fold_right].
  split; [|split].
  - intros Hne. unfold verifyAccessToken.
    rewrite (bool_decide_false _ Htok), (bool_decide_false _ Hne). reflexivity.
  - intros Heq Hr. rewrite (verifyAccessToken_pass _ _ _ Heq).
    unfold NewProxy. rewrite Hr. reflexivity.
  - intros Heq Hr. rewrite (verifyAccessToken_pass _ _ _ Heq).
    rewrite NewProxy_ready by exact Hr. cbn [forwarded fmap list_fmap].
    unfold Rewrite. cbn [ReqHeader].
    destruct (CustomHeaders_lookup (at_Token v)
                (ReqHeader (SetURL upstream (outbound r)))) as (Hau & _).
    rewrite Hau. reflexivity.
Qed.

(** ** The two revisions of the handler *)

Lemma fold_left_snoc {A : Type} (cs w : list A) :
  fold_left (fun w c => w ++ [c]) cs w = w ++ cs.
Proof.
  revert w. induction cs as [|c cs IH]; intros w; cbn [fold_left].
  - by rewrite app_nil_r.
  - rewrite IH. by rewrite <- app_assoc.
Qed.

(** X7. For one state of the store, [NewProxy] sends upstream the request that
    [ServeHTTP] of the revision without the recorder sends, and the client
    gets the calls of that revision as the recorder passes them on. *)
Theorem revisions_forward_alike
    (outbound : Request -> Request) (SetURL : string -> Request -> Request)
    (answer : Request -> list WriterCall) (v : View) (v0 : Rev0.View)
    (r : Request) :
  Ready (at_Ready v) (now v) = Rev0.Ready (Rev0.at_Ready v0) (Rev0.now v0) ->
  Token (at_Token v) = Rev0.Token (Rev0.at_Token v0) ->
  forwarded (NewProxy outbound SetURL answer APIEndpoint v r)
    = forwarded (Rev0.ServeHTTP outbound SetURL answer v0 r) /\
  written (NewProxy outbound SetURL answer APIEndpoint v r)
    = under (Tracker_run (written (Rev0.ServeHTTP outbound SetURL answer v0 r))
               TrackStatusCode).
Proof.
  intros Hr Ht. unfold NewProxy, Rev0.ServeHTTP. rewrite <- Hr.
  destruct (Ready (at_Ready v) (now v)); cbn [negb].
  - unfold ReverseProxy_ServeHTTP. rewrite fold_left_snoc.
    unfold Rewrite, Rev0.Rewrite, CustomHeaders. rewrite <- Ht.
    change Rev0.Endpoint with APIEndpoint. split; reflexivity.
  - split; reflexivity.
Qed.

(** ** The middleware loop *)

Lemma applyMiddlewares_loop_prefix (ms1 ms2 : list Middleware) (h : Handler) :
  applyMiddlewares_loop (length ms1) h (ms1 ++ ms2) = applyMiddlewares h ms1.
Proof.
  revert ms2 h. induction ms1 as [|m ms IH] using rev_ind; intros ms2 h.
  { reflexivity. }
  rewrite length_app, Nat.add_1_r. cbn [applyMiddlewares_loop].
  rewrite <- app_assoc. change ([m] ++ ms2) with (m :: ms2).
  rewrite list_lookup_middle by reflexivity.
  rewrite IH. unfold applyMiddlewares. by rewrite fold_right_app.
Qed.

(** X8. The loop, which runs from the last index down to 0, wraps the handler
    so that [middlewares[0]] is outermost and the last one innermost; a
    chain of two lists is the first list around the second. *)
Theorem applyMiddlewares_order (ms ms' : list Middleware) (h : Handler) :
  applyMiddlewares_loop (length ms) h ms = fold_right (fun m k => m k) h ms /\
  applyMiddlewares h (ms ++ ms') = applyMiddlewares (applyMiddlewares h ms') ms.
Proof.
  split.
  - rewrite <- (app_nil_r ms) at 2. apply applyMiddlewares_loop_prefix.
  - unfold applyMiddlewares. apply fold_right_app.
Qed.

(** ** The status recorder as a wrapper *)

Lemma Tracker_run_kept (cs : list WriterCall) (s : StatusCodeTracker) :
  exists kept,
    under (Tracker_run cs s) = under s ++ kept /\
    kept `sublist_of` cs /\
    List.filter (fun c => negb (is_WriteHeader c)) kept
      = List.filter (fun c => negb (is_WriteHeader c)) cs.
Proof.
  revert s. induction cs as [|c cs IH]; intros s.
  { exists []. rewrite app_nil_r. by repeat split. }
  change (Tracker_run (c :: cs) s) with (Tracker_run cs (Tracker_call s c)).
  destruct (IH (Tracker_call s c)) as (kept & Hu & Hs & Hf). rewrite Hu.
  destruct c as [n|b]; cbn [Tracker_call].
  - unfold Tracker_WriteHeader. destruct (code s =? 0); cbn [negb under].
    + exists (WriteHeader n :: kept). rewrite <- app_assoc.
      split; [reflexivity|]. split; [by apply sublist_skip|]. exact Hf.
    + exists kept. split; [reflexivity|]. split; [by apply sublist_cons|].
      exact Hf.
  - unfold Tracker_Write. cbn [under].
    exists (Write b :: kept). rewrite <- app_assoc.
    split; [reflexivity|]. split; [by apply sublist_skip|].
    cbn. by rewrite Hf.
Qed.

(** X9. The recorder makes up no call and loses no body: what reaches the
    wrapped writer is a part of the calls made, in their order, and it
    contains every [Write] made. *)
Theorem tracker_passes_writes (cs : list WriterCall) :
  under (Tracker_run cs TrackStatusCode) `sublist_of` cs /\
  List.filter (fun c => negb (is_WriteHeader c)) (under (Tracker_run cs TrackStatusCode))
    = List.filter (fun c => negb (is_WriteHeader c)) cs.
Proof.
  destruct (Tracker_run_kept cs TrackStatusCode) as (kept & Hu & Hs & Hf).
  cbn in Hu. rewrite Hu. by split.
Qed.

Lemma Tracker_run_writes (rest : list WriterCall) (s : StatusCodeTracker) :
  code s <> 0 ->
  Forall (fun c => is_WriteHeader c = false) rest ->
  Tracker_run rest s = mkTracker (under s ++ rest) (code s).
Proof.
  revert s. induction rest as [|c rest IH]; intros s Hs Hall.
  { rewrite app_nil_r. by destruct s. }
  apply Forall_cons in Hall as [Hc Hrest]. destruct c as [n|b]; [discriminate|].
  change (Tracker_run (Write b :: rest) s)
    with (Tracker_run rest (Tracker_Write b s)).
  apply Z.eqb_neq in Hs as Hb.
  assert (Tracker_Write b s = mkTracker (under s ++ [Write b]) (code s)) as ->.
  { unfold Tracker_Write. by rewrite Hb. }
  rewrite IH; [|exact Hs|exact Hrest]. cbn [under code].
  by rewrite <- app_assoc.
Qed.

(** X10. For a handler that keeps to the protocol (one status, then bodies, or
    bodies alone) the recorder is invisible: the wrapped writer gets every
    call as made, and the status recorded is the one on the wire. *)
Theorem tracker_transparent (c : WriterCall) (rest : list WriterCall) :
  status_of c <> 0 ->
  Forall (fun c' => is_WriteHeader c' = false) rest ->
  Tracker_run (c :: rest) TrackStatusCode = mkTracker (c :: rest) (status_of c).
Proof.
  intros Hc Hrest.
  change (Tracker_run (c :: rest) TrackStatusCode)
    with (Tracker_run rest (Tracker_call TrackStatusCode c)).
  destruct (Tracker_first_call c) as [Hcode Hunder].
  rewrite Tracker_run_writes; [|by rewrite Hcode|exact Hrest].
  by rewrite Hcode, Hunder.
Qed.

(** X11. A recorded status of 0, as the access log may show it, means that the
    handler made no call at all on the writer (for handlers that write
    non-zero statuses). *)
Theorem tracker_zero_means_silent (cs : list WriterCall) :
  Forall (fun c => status_of c <> 0) cs ->
  (code (Tracker_run cs TrackStatusCode) = 0 <-> cs = []) /\
  (under (Tracker_run cs TrackStatusCode) = [] <-> cs = []).
Proof.
  intros Hall. destruct cs as [|c rest]; [by split|].
  apply Forall_cons in Hall as [Hc _].
  change (Tracker_run (c :: rest) TrackStatusCode)
    with (Tracker_run rest (Tracker_call TrackStatusCode c)).
  destruct (Tracker_first_call c) as [Hcode Hunder].
  destruct (Tracker_run_latched rest (Tracker_call TrackStatusCode c))
    as [Hl _]; [by rewrite Hcode|].
  destruct (Tracker_run_kept rest (Tracker_call TrackStatusCode c))
    as (kept & Hu & _).
  rewrite Hl, Hcode, Hu, Hunder. split; split; intros H; try discriminate H.
  by destruct Hc.
Qed.

(** ** Runs of the refresh loop *)

(** The three ways a pass can go. *)
Lemma Start_iter_cases (i : Iter) (l : Loop) :
  (~ attempts i l /\ Start_iter i l = (after_select (wake i) l, [])) \/
  (attempts i l /\ failed_exchange (exchange i)) \/
  (attempts i l /\ exists tok, successful_exchange (exchange i) tok).
Proof.
  destruct (Ready (ts l) (now_ready i)) eqn:Hr.
  - left. split; [intros [_ H]; congruence|]. by apply Start_iter_skip.
  - destruct (decide (wake i = CtxDone)) as [Hw|Hw].
    + left. split; [by intros [H _]|]. unfold Start_iter. by rewrite Hw.
    + right. assert (attempts i l) as Ha by (by split).
      destruct (exchange_cases (exchange i)) as [Hf|Hs]; [by left|by right].
Qed.

Lemma refresh_request_credential (t t' : TokenSource) :
  oauthToken t = oauthToken t' -> refresh_request t = refresh_request t'.
Proof. unfold refresh_request. by intros ->. Qed.

(** What one pass does to the credential, to the requests it sends and to
    the [stopped] flag. *)
Lemma Start_iter_credential (i : Iter) (l : Loop) :
  oauthToken (ts (fst (Start_iter i l))) = oauthToken (ts l) /\
  Forall (eq (refresh_request (ts l))) (exchanges (snd (Start_iter i l))) /\
  (length (exchanges (snd (Start_iter i l))) <= 1)%nat.
Proof.
  destruct (Start_iter_cases i l) as [[_ ->]|[[Ha Hf]|[Ha [tok Hs]]]].
  - cbn [fst snd]. rewrite ts_after_select. by repeat split; [constructor|cbn; lia].
  - rewrite (Start_iter_failed i l Ha Hf). cbn [fst snd ts].
    split; [reflexivity|]. split; [by repeat constructor|reflexivity].
  - rewrite (Start_iter_succeeded i l tok Ha Hs). cbn [fst snd ts oauthToken].
    split; [reflexivity|]. split; [by repeat constructor|reflexivity].
Qed.

Lemma exchanges_app (tr1 tr2 : list LoopEffect) :
  exchanges (tr1 ++ tr2) = exchanges tr1 ++ exchanges tr2.
Proof. unfold exchanges. apply omap_app. Qed.

(** X12. The token endpoint only ever sees the long-lived credential: over a
    run of any length the credential in the store stays the one given at
    start, and every exchange sends one and the same request, a GET to the
    token endpoint with that credential as bearer. *)
Theorem run_keeps_credential (passes : list Iter) (l : Loop) :
  oauthToken (ts (fst (Start_run passes l))) = oauthToken (ts l) /\
  Forall (eq (refresh_request (ts l))) (exchanges (snd (Start_run passes l))) /\
  xMethod (refresh_request (ts l)) = "GET" /\
  xURL (refresh_request (ts l)) = OAuthTokenEndpoint /\
  xHeader (refresh_request (ts l)) !! "Authorization"
    = Some ["Bearer " +:+ oauthToken (ts l)].
Proof.
  split; [|split; [|split; [reflexivity|split; [reflexivity|]]]].
  - revert l. induction passes as [|i rest IH]; intros l; [reflexivity|].
    cbn [Start_run]. destruct (stopped l); [reflexivity|].
    destruct (Start_iter_credential i l) as (Hc & _).
    destruct (Start_iter i l) as [l1 tr1]. specialize (IH l1).
    destruct (Start_run rest l1) as [l2 tr2]. cbn [fst] in *. congruence.
  - revert l. induction passes as [|i rest IH]; intros l; [constructor|].
    cbn [Start_run]. destruct (stopped l); [constructor|].
    destruct (Start_iter_credential i l) as (Hc & Hx & _).
    destruct (Start_iter i l) as [l1 tr1]. specialize (IH l1).
    destruct (Start_run rest l1) as [l2 tr2]. cbn [fst snd] in *.
    rewrite exchanges_app. apply Forall_app. split; [exact Hx|].
    by rewrite (refresh_request_credential _ _ Hc) in IH.
  - destruct canonical_keys as (Ha & Hu & _ & _ & _ & Hacc).
    unfold refresh_request, Header_Set. cbn [xHeader]. rewrite Ha, Hu, Hacc.
    do 2 (rewrite lookup_insert_ne by discriminate). apply lookup_insert_eq.
Qed.

(** X13. A run makes at most one exchange per pass. *)
Theorem run_exchanges_bounded (passes : list Iter) (l : Loop) :
  (length (exchanges (snd (Start_run passes l))) <= length passes)%nat.
Proof.
  revert l. induction passes as [|i rest IH]; intros l; [reflexivity|].
  cbn [Start_run]. destruct (stopped l); [cbn; lia|].
  destruct (Start_iter_credential i l) as (_ & _ & Hlen).
  destruct (Start_iter i l) as [l1 tr1]. specialize (IH l1).
  destruct (Start_run rest l1) as [l2 tr2]. cbn [fst snd] in *.
  rewrite exchanges_app, length_app. cbn [length]. lia.
Qed.

Lemma Start_run_stopped (passes : list Iter) (l : Loop) :
  stopped l = true -> Start_run passes l = (l, []).
Proof. intros H. destruct passes; [reflexivity|]. cbn [Start_run]. by rewrite H. Qed.

(** X14. Once the context is done the loop is over: the pass that sees it and
    all passes after it send nothing, log nothing and leave the store
    alone. *)
Theorem cancelled_loop_is_silent (i : Iter) (rest : list Iter) (l : Loop) :
  wake i = CtxDone ->
  snd (Start_run (i :: rest) l) = [] /\
  ts (fst (Start_run (i :: rest) l)) = ts l /\
  stopped (fst (Start_run (i :: rest) l)) = true.
Proof.
  intros Hw. cbn [Start_run]. destruct (stopped l) eqn:Hs; [by repeat split|].
  unfold Start_iter. rewrite Hw. cbn [after_select].
  rewrite Start_run_stopped by reflexivity. by repeat split.
Qed.

(** X15. The store is written by successful exchanges only: after a run it
    holds the token it held before, or the token decoded from the answer
    to one of the run's passes. *)
Theorem store_written_only_by_success (passes : list Iter) (l : Loop) :
  apiToken (ts (fst (Start_run passes l))) = apiToken (ts l) \/
  exists i tok,
    i ∈ passes /\ successful_exchange (exchange i) tok /\
    apiToken (ts (fst (Start_run passes l))) = tok.
Proof.
  revert l. induction passes as [|i rest IH]; intros l; [by left|].
  cbn [Start_run]. destruct (stopped l); [by left|].
  assert (apiToken (ts (fst (Start_iter i l))) = apiToken (ts l) \/
          exists tok, successful_exchange (exchange i) tok /\
                      apiToken (ts (fst (Start_iter i l))) = tok) as Hstep.
  { destruct (Start_iter_cases i l) as [[_ ->]|[[Ha Hf]|[Ha [tok Hs]]]].
    - left. cbn [fst]. by rewrite ts_after_select.
    - left. by rewrite Start_iter_failed_store.
    - right. exists tok. split; [exact Hs|].
      by rewrite (Start_iter_succeeded i l tok Ha Hs). }
  destruct (Start_iter i l) as [l1 tr1]. specialize (IH l1).
  destruct (Start_run rest l1) as [l2 tr2]. cbn [fst] in *.
  destruct IH as [IH|(j & tok & Hj & Hs & Htok)].
  - rewrite IH. destruct Hstep as [Hstep|(tok & Hs & Htok)]; [by left|].
    right. exists i, tok. split; [left|by split].
  - right. exists j, tok. split; [by right|by split].
Qed.

(** ** Numbers that reach the store *)






(** ** Timers *)

(** X17. After a failed attempt the retry timer can wake the loop from 5
    seconds after the [time.After] call on and not before.  After a
    successful one the refresh timer can wake it from the call instant
    plus the [int64] nanosecond product
    [time.Duration(RefreshIn - 10) * time.Second] on and not before; the
    product is taken with wrap-around, and for [RefreshIn] from
    -9223372026 to 9223372046 it is [RefreshIn - 10] seconds. *)
Theorem timers_wake_at_deadline (i : Iter) (l : Loop) (t : Z) :
  attempts i l ->
  (failed_exchange (exchange i) ->
   (can_wake RetryFired false false t (fst (Start_iter i l)) = true
    <-> now_after i + 5 * Second <= t)) /\
  (forall tok, successful_exchange (exchange i) tok ->
   (can_wake TimeoutFired false false t (fst (Start_iter i l)) = true
    <-> now_after i + seconds (wrap64 (RefreshIn tok - 10)) <= t) /\
   (-9223372026 <= RefreshIn tok <= 9223372046 ->
    seconds (wrap64 (RefreshIn tok - 10)) = (RefreshIn tok - 10) * Second /\
    (can_wake TimeoutFired false false t (fst (Start_iter i l)) = true
     <-> now_after i + (RefreshIn tok - 10) * Second <= t))).
Proof.
  intros Ha. split.
  - intros Hf. rewrite (Start_iter_failed i l Ha Hf).
    cbn [fst can_wake retry fired]. apply Z.leb_le.
  - intros tok Hs. rewrite (Start_iter_succeeded i l tok Ha Hs).
    cbn [fst can_wake timeout fired]. split; [apply Z.leb_le|].
    intros Hrange. rewrite seconds_small by lia.
    split; [reflexivity|apply Z.leb_le].
Qed.

(** X18. An endpoint that keeps answering with a token already expired and
    a [refresh_in] for which the delay the code computes,
    [time.Duration(RefreshIn - 10) * time.Second] in wrapping [int64]
    nanoseconds, is zero or negative is asked again without any pause:
    every pass finds the token not valid and makes an exchange, and the
    refresh timer it arms is due at once, ready to wake the next pass.
    Every [refresh_in] from -9223372026 to 10 gives such a delay. *)
Theorem expired_short_token_spins (passes : list Iter) (l : Loop)
    (rt : RoundTrip) (tok : APIToken) :
  stopped l = false ->
  successful_exchange rt tok ->
  seconds (wrap64 (RefreshIn tok - 10)) <= 0 ->
  apiToken (ts l) = tok ->
  Forall (fun i => wake i <> CtxDone /\ exchange i = rt /\
                   ExpiresAt tok * Second <= now_ready i) passes ->
  due_when_armed passes l /\
  exchanges (snd (Start_run passes l))
    = replicate (length passes) (refresh_request (ts l)) /\
  (forall r, -9223372026 <= r <= 10 -> seconds (wrap64 (r - 10)) <= 0).
Proof.
  intros Hst Hs Hdelay Htok Hall.
  assert (forall r, -9223372026 <= r <= 10 -> seconds (wrap64 (r - 10)) <= 0)
    as Hshort.
  { intros r Hr. rewrite seconds_small by lia. unfold Second. lia. }
  enough (due_when_armed passes l /\
          exchanges (snd (Start_run passes l))
            = replicate (length passes) (refresh_request (ts l))) as [Hd Hx].
  { split; [exact Hd|]. split; [exact Hx|exact Hshort]. }
  clear Hshort. revert l Hst Htok Hall.
  induction passes as [|i rest IH]; intros l Hst Htok Hall; [by split|].
  apply Forall_cons in Hall as [(Hw & Hrt & Hexp) Hrest].
  assert (attempts i l) as Ha.
  { split; [exact Hw|]. apply Ready_false_iff. by rewrite Htok. }
  rewrite <- Hrt in Hs.
  cbn [due_when_armed Start_run length replicate]. rewrite Hst.
  rewrite (Start_iter_succeeded i l tok Ha Hs). cbn [fst].
  set (l1 := mkLoop _ _ _ _ _).
  destruct (IH l1) as [Hd Hx]; [exact Hst|reflexivity|exact Hrest|].
  split; [split; [|exact Hd]|].
  - cbn [l1 timeout fired]. apply Z.leb_le. lia.
  - destruct (Start_run rest l1) as [l2 tr2].
    cbn [snd] in *. rewrite exchanges_app, Hx. reflexivity.
Qed.

(** ** The loop of the revision without the ticker *)

(** X19. In that revision every wake-up other than cancellation makes an
    exchange, whether or not the stored token is still valid; when
    [refresh] returns an error the store is left alone and the retry timer
    is armed for 5 seconds later. *)
Theorem Rev0_refreshes_on_every_wake (w : Rev0.Wake) (rt : RoundTrip)
    (now : Z) (l : Rev0.Loop) :
  w <> Rev0.CtxDone ->
  exchanges (snd (Rev0.start_iter w rt now l))
    = [Rev0.refresh_request (Rev0.ts l)] /\
  (snd (Rev0.refresh (Rev0.ts l) rt now) <> None ->
   Rev0.ts (fst (Rev0.start_iter w rt now l)) = Rev0.ts l /\
   Rev0.retry (fst (Rev0.start_iter w rt now l)) = time_After now (5 * Second)).
Proof.
  intros Hw.
  assert (Rev0.ts (Rev0.after_select w l) = Rev0.ts l) as Hts by (by destruct w).
  unfold Rev0.start_iter. rewrite Hts.
  assert (exists t next err,
            Rev0.refresh (Rev0.ts l) rt now
              = ([ClientDo (Rev0.refresh_request (Rev0.ts l))], t, next, err) /\
            (err <> None -> t = Rev0.ts l)) as (t & next & err & Href & Herr).
  { unfold Rev0.refresh. destruct rt as [| |c data];
      [by eexists _, _, _..|].
    destruct (negb (c =? 200)); [by eexists _, _, _|].
    destruct (Rev0.Unmarshal_APIToken data Rev0.zero_APIToken) as [tok [e|]];
      [by eexists _, _, _|].
    eexists _, _, _. split; [reflexivity|]. by intros H. }
  rewrite Href. cbn [snd]. split.
  - destruct err; by destruct w.
  - intros Hne. destruct err as [e|]; [|by destruct Hne].
    rewrite Herr by done. by destruct w.
Qed.

(** ** What the decoder looks at *)

(** X20. Members whose key names no field of [APIToken] (matched exactly or
    ignoring case) have no effect on the decode: the token and the error
    are those of the object without them. *)
Theorem unknown_members_ignored (members : list (string * json)) (tok : APIToken) :
  Unmarshal_APIToken (Valid (JObject members)) tok
  = Unmarshal_APIToken (Valid (JObject (List.filter known_member members))) tok.
Proof.
  cbn [Unmarshal_APIToken]. generalize (tok, @None unmarshal_error).
  induction members as [|m ms IH]; intros st; [reflexivity|].
  cbn [fold_left List.filter]. unfold known_member at 1.
  destruct (find_field APIToken_fields (fst m)) as [f|] eqn:Hf.
  - cbn [fold_left]. apply IH.
  - rewrite <- IH. f_equal. destruct st as [t saved].
    unfold APIToken_member. by rewrite Hf.
Qed.

Lemma find_field_revisions (k : string) :
  match find_field Rev0.APIToken_fields k with
  | Some Rev0.FExpiresAt => find_field APIToken_fields k = Some FExpiresAt
  | Some Rev0.FRefreshIn => find_field APIToken_fields k = Some FRefreshIn
  | Some Rev0.FToken => find_field APIToken_fields k = Some FToken
  | Some Rev0.FEndpoints | None => find_field APIToken_fields k = None
  end.
Proof.
  unfold find_field, byExactName, byFoldedName,
    Rev0.APIToken_fields, APIToken_fields.
  cbn [find fst snd].
  change (foldName "expires_at") with "EXPIRES_AT".
  change (foldName "refresh_in") with "REFRESH_IN".
  change (foldName "token") with "TOKEN".
  change (foldName "endpoints") with "ENDPOINTS".
  destruct (decide ("expires_at" = k)) as [<-|N1].
  { reflexivity. }
  rewrite (bool_decide_false _ N1).
  destruct (decide ("refresh_in" = k)) as [<-|N2].
  { reflexivity. }
  rewrite (bool_decide_false _ N2).
  destruct (decide ("token" = k)) as [<-|N3].
  { reflexivity. }
  rewrite (bool_decide_false _ N3).
  destruct (decide ("endpoints" = k)) as [<-|N4].
  { reflexivity. }
  rewrite (bool_decide_false _ N4). cbn [fmap option_fmap option_map].
  destruct (decide ("EXPIRES_AT" = foldName k)) as [E1|E1].
  { by rewrite !(bool_decide_true _ E1). }
  rewrite !(bool_decide_false _ E1).
  destruct (decide ("REFRESH_IN" = foldName k)) as [E2|E2].
  { by rewrite !(bool_decide_true _ E2). }
  rewrite !(bool_decide_false _ E2).
  destruct (decide ("TOKEN" = foldName k)) as [E3|E3].
  { by rewrite !(bool_decide_true _ E3). }
  rewrite !(bool_decide_false _ E3).
  by destruct (bool_decide ("ENDPOINTS" = foldName k)).
Qed.

Lemma saveError_not_None (saved : option unmarshal_error) (e : unmarshal_error) :
  saveError saved e <> None.
Proof. by destruct saved. Qed.

Lemma store_Endpoints_error (v : json) (st : Rev0.Endpoints * option unmarshal_error) :
  snd (Rev0.store_Endpoints v st) = None -> snd st = None.
Proof.
  assert (forall ms st', snd (fold_left Rev0.Endpoints_member ms st') = None ->
                         snd st' = None) as Hfold.
  { induction ms as [|m ms IH]; intros st' H; [exact H|].
    cbn [fold_left] in H. apply IH in H. destruct st' as [e saved].
    unfold Rev0.Endpoints_member in H.
    destruct (find_field Rev0.Endpoints_fields (fst m)) as [[|]|]; [| |exact H].
    - destruct (store_string (snd m) (Rev0.API e)) as [x [|]]; cbn in H;
        [by apply saveError_not_None in H|exact H].
    - destruct (store_string (snd m) (Rev0.Proxy e)) as [x [|]]; cbn in H;
        [by apply saveError_not_None in H|exact H]. }
  destruct v as [|b|n|s|es|ms]; cbn [Rev0.store_Endpoints snd];
    try (intros H; by apply saveError_not_None in H).
  - by intros H.
  - apply Hfold.
Qed.

Lemma APIToken_member_revisions
    (st0 : Rev0.APIToken * option unmarshal_error)
    (st : APIToken * option unmarshal_error) (m : string * json) :
  same_token st0 st ->
  same_token (Rev0.APIToken_member st0 m) (APIToken_member st m).
Proof.
  destruct st0 as [t0 s0], st as [t s]. unfold same_token. cbn [fst snd].
  intros (He & Hr & Ht & Herr).
  pose proof (find_field_revisions (fst m)) as Hf.
  unfold Rev0.APIToken_member, APIToken_member.
  destruct (find_field Rev0.APIToken_fields (fst m)) as [[| | |]|]; rewrite Hf.
  - rewrite He. destruct (store_int64 (snd m) (Rev0.ExpiresAt t0)) as [x [|]];
      cbn [fst snd ExpiresAt RefreshIn Token_
           Rev0.ExpiresAt Rev0.RefreshIn Rev0.Token_];
      repeat split; try assumption.
    intros H. by apply saveError_not_None in H.
  - rewrite Hr. destruct (store_int64 (snd m) (Rev0.RefreshIn t0)) as [x [|]];
      cbn [fst snd ExpiresAt RefreshIn Token_
           Rev0.ExpiresAt Rev0.RefreshIn Rev0.Token_];
      repeat split; try assumption.
    intros H. by apply saveError_not_None in H.
  - rewrite Ht. destruct (store_string (snd m) (Rev0.Token_ t0)) as [x [|]];
      cbn [fst snd ExpiresAt RefreshIn Token_
           Rev0.ExpiresAt Rev0.RefreshIn Rev0.Token_];
      repeat split; try assumption.
    intros H. by apply saveError_not_None in H.
  - pose proof (store_Endpoints_error (snd m) (Rev0.Endpoints_ t0, s0)) as Hs.
    destruct (Rev0.store_Endpoints (snd m) (Rev0.Endpoints_ t0, s0)) as [x s0'].
    cbn [fst snd Rev0.ExpiresAt Rev0.RefreshIn Rev0.Token_] in *.
    repeat split; try assumption. intros H. apply Herr, Hs, H.
  - cbn [fst snd]. repeat split; assumption.
Qed.

(** X21. Dropping the [endpoints] field from [APIToken] changed nothing for the
    fields that are used: on any body the two revisions decode the same
    expiry, refresh delay and token, and every body the revision with
    [endpoints] accepts is accepted by the one without. *)
Theorem revisions_decode_alike (data : payload) :
  ExpiresAt (fst (Unmarshal_APIToken data zero_APIToken))
    = Rev0.ExpiresAt (fst (Rev0.Unmarshal_APIToken data Rev0.zero_APIToken)) /\
  RefreshIn (fst (Unmarshal_APIToken data zero_APIToken))
    = Rev0.RefreshIn (fst (Rev0.Unmarshal_APIToken data Rev0.zero_APIToken)) /\
  Token_ (fst (Unmarshal_APIToken data zero_APIToken))
    = Rev0.Token_ (fst (Rev0.Unmarshal_APIToken data Rev0.zero_APIToken)) /\
  (snd (Rev0.Unmarshal_APIToken data Rev0.zero_APIToken) = None ->
   snd (Unmarshal_APIToken data zero_APIToken) = None).
Proof.
  change (same_token (Rev0.Unmarshal_APIToken data Rev0.zero_APIToken)
            (Unmarshal_APIToken data zero_APIToken)).
  destruct data as [raw|v]; [by repeat split|].
  destruct v as [|b|n|s|es|ms]; try (by repeat split).
  cbn [Rev0.Unmarshal_APIToken Unmarshal_APIToken].
  assert (forall st0 st, same_token st0 st ->
            same_token (fold_left Rev0.APIToken_member ms st0)
                       (fold_left APIToken_member ms st)) as Hfold.
  { induction ms as [|m ms IH]; intros st0 st Hst; [exact Hst|].
    cbn [fold_left]. apply IH. by apply APIToken_member_revisions. }
  apply Hfold. by repeat split.
Qed.

(** ** What [parseOAuthToken] may return *)

Lemma range_order_visit_first (k : string) (cfg : gmap string TokenObject) :
  range_order cfg (visit_first k cfg).
Proof.
  unfold range_order, visit_first. destruct (cfg !! k) as [o|] eqn:Hk.
  - by apply map_to_list_delete.
  - reflexivity.
Qed.

(** The results of the range loop over all orders Go allows. *)
Lemma range_results (cfg : gmap string TokenObject) (res : parse_result) :
  (exists order, (forall c, range_order c (order c)) /\
                 range_first (order cfg) = res)
  <-> (cfg = ∅ /\ res = ParseErr ParseNoToken) \/
      (exists k o, cfg !! k = Some o /\ res = ParseOk (OAuthToken o)).
Proof.
  split.
  - intros (order & Hord & Hres). specialize (Hord cfg). unfold range_order in Hord.
    destruct (order cfg) as [|[k o] rest] eqn:Ho; cbn in Hres; subst res.
    + left. split; [|reflexivity]. apply map_to_list_empty_iff.
      by apply Permutation_nil.
    + right. exists k, o. split; [|reflexivity].
      apply elem_of_map_to_list. rewrite <- Hord. left.
  - intros [[-> ->]|(k & o & Hk & ->)].
    + exists map_to_list. split; [intros c; apply range_order_map_to_list|].
      by rewrite map_to_list_empty.
    + exists (visit_first k). split; [intros c; apply range_order_visit_first|].
      unfold visit_first. by rewrite Hk.
Qed.

Lemma parseOAuthToken_decoded (data : payload) (cfg : gmap string TokenObject)
    (res : parse_result) :
  Unmarshal_cfg data ∅ = (cfg, None) ->
  parseOAuthToken (Some data) res
  <-> (exists order, (forall c, range_order c (order c)) /\
                     range_first (order cfg) = res).
Proof.
  intros Hcfg. unfold parseOAuthToken, parseOAuthToken_in. by rewrite Hcfg.
Qed.

(** X22. When [apps.json] decodes, the calls of [parseOAuthToken] can return
    exactly the [oauth_token] of each entry of the file, and nothing else;
    the "no OAuth token found" error comes exactly when the file has no
    entry. *)
Theorem parseOAuthToken_results (data : payload) (cfg : gmap string TokenObject)
    (res : parse_result) :
  Unmarshal_cfg data ∅ = (cfg, None) ->
  parseOAuthToken (Some data) res
  <-> (cfg = ∅ /\ res = ParseErr ParseNoToken) \/
      (exists k o, cfg !! k = Some o /\ res = ParseOk (OAuthToken o)).
Proof.
  intros Hcfg. rewrite (parseOAuthToken_decoded data cfg res Hcfg).
  apply range_results.
Qed.

Lemma cfg_size_1 (cfg : gmap string TokenObject) :
  size cfg = 1%nat -> exists k o, cfg = {[k := o]}.
Proof.
  intros Hsize. pose proof (length_map_to_list cfg) as Hlen.
  pose proof (list_to_map_to_list cfg) as Hm.
  destruct (map_to_list cfg) as [|[k o] [|? ?]]; cbn in Hlen; try lia.
  exists k, o. rewrite <- Hm. cbn. apply insert_empty.
Qed.

(** X23. A file with a single entry gives one result, that entry's token,
    whatever the order of the iteration. *)
Theorem parseOAuthToken_single_entry (data : payload)
    (cfg : gmap string TokenObject) :
  Unmarshal_cfg data ∅ = (cfg, None) ->
  size cfg = 1%nat ->
  exists k o,
    cfg = {[k := o]} /\
    forall res, parseOAuthToken (Some data) res <-> res = ParseOk (OAuthToken o).
Proof.
  intros Hcfg Hsize. apply cfg_size_1 in Hsize as (k & o & ->).
  exists k, o. split; [reflexivity|]. intros res.
  rewrite (parseOAuthToken_decoded data _ res Hcfg), range_results. split.
  - intros [[He _]|(k' & o' & Hk' & ->)].
    + by apply map_non_empty_singleton in He.
    + apply lookup_singleton_Some in Hk' as [_ ->]. reflexivity.
  - intros ->. right. exists k, o. split; [apply lookup_singleton_eq|reflexivity].
Qed.

(** X24. A file that cannot be read, or that does not decode as a whole, never
    yields a credential: the only result is the error, even when some of
    its entries are well-formed. *)
Theorem parseOAuthToken_failures :
  (forall res, parseOAuthToken None res <-> res = ParseErr ParseReadFile) /\
  (forall data cfg e res,
     Unmarshal_cfg data ∅ = (cfg, Some e) ->
     (parseOAuthToken (Some data) res <-> res = ParseErr (ParseUnmarshal e))).
Proof.
  split.
  - intros res. unfold parseOAuthToken, parseOAuthToken_in. split.
    + by intros (order & _ & <-).
    + intros ->. exists map_to_list.
      split; [intros c; apply range_order_map_to_list|reflexivity].
  - intros data cfg e res Hcfg. unfold parseOAuthToken, parseOAuthToken_in.
    rewrite Hcfg. split.
    + by intros (order & _ & <-).
    + intros ->. exists map_to_list.
      split; [intros c; apply range_order_map_to_list|reflexivity].
Qed.

(** ** No renewal ahead of time *)

(** X25. While the stored token has not expired the loop never renews it:
    whatever wakes the loop before the expiry (the refresh timer armed at
    [RefreshIn - 10] seconds included) makes no exchange and leaves the
    store alone, so the next exchange comes only at or after the expiry. *)
Theorem no_refresh_before_expiry (passes : list Iter) (l : Loop) :
  Forall (fun i => now_ready i < ExpiresAt (apiToken (ts l)) * Second) passes ->
  snd (Start_run passes l) = [] /\
  ts (fst (Start_run passes l)) = ts l.
Proof.
  intros Hall. apply Start_run_all_ready.
  eapply Forall_impl; [exact Hall|]. intros i Hi. by apply Ready_iff.
Qed.

(** * The further properties at concrete inputs *)

Lemma expiry_is_permanent_witness :
  let t := mkTokenSource (mkAPIToken 600 600 "t1") "abc" in
  600 * Second <= 601 * Second /\
  (Ready t (600 * Second) = false -> Ready t (601 * Second) = false).
Proof.
  intros t.
  assert (600 * Second <= 601 * Second) as H by (unfold Second; lia).
  split; [exact H|].
  exact (proj1 (expiry_is_permanent t (600 * Second) (601 * Second) H)).
Defined.

Lemma proxy_keeps_other_headers_witness :
  let t := mkTokenSource (mkAPIToken 600 600 "t1") "abc" in
  (fun out => ReqHeader out !! "Content-Type")
    <$> forwarded (NewProxy ex_outbound ex_SetURL ex_answer APIEndpoint
                     (mkView t 0 t) ex_request)
  = [ReqHeader (ex_SetURL APIEndpoint (ex_outbound ex_request)) !! "Content-Type"].
Proof.
  intros t.
  apply (proxy_keeps_other_headers ex_outbound ex_SetURL ex_answer APIEndpoint
           (mkView t 0 t) ex_request "Content-Type").
  - reflexivity.
  - rewrite !elem_of_cons, elem_of_nil.
    intros [H|[H|[H|[H|[H|H]]]]]; solve [discriminate H | exact H].
Defined.

(** The sample request carries "Bearer client-key": with that key as the
    protecting token and "t1" in the store it is forwarded with
    "Bearer t1". *)
Lemma gate_then_proxy_witness :
  let t := mkTokenSource (mkAPIToken 600 600 "t1") "abc" in
  "client-key" <> "" /\
  (fun out => ReqHeader out !! "Authorization")
    <$> forwarded (applyMiddlewares
                     (NewProxy ex_outbound ex_SetURL ex_answer APIEndpoint (mkView t 0 t))
                     [verifyAccessToken "client-key"] ex_request)
  = [Some ["Bearer " +:+ Token (at_Token (mkView t 0 t))]].
Proof.
  intros t.
  assert ("client-key" <> "") as H by discriminate.
  split; [exact H|].
  destruct (gate_then_proxy ex_outbound ex_SetURL ex_answer APIEndpoint
              "client-key" (mkView t 0 t) ex_request H) as (_ & _ & Hfwd).
  apply Hfwd; vm_compute; reflexivity.
Defined.

Lemma revisions_forward_alike_witness :
  let t := mkTokenSource (mkAPIToken 600 600 "t1") "abc" in
  let t0 := Rev0.mkTokenSource
              (Rev0.mkAPIToken 600 600 "t1" (Rev0.mkEndpoints "" "")) "abc" in
  forwarded (NewProxy ex_outbound ex_SetURL ex_answer APIEndpoint (mkView t 0 t) ex_request)
  = forwarded (Rev0.ServeHTTP ex_outbound ex_SetURL ex_answer
                 (Rev0.mkView t0 0 t0) ex_request).
Proof.
  intros t t0.
  apply (revisions_forward_alike ex_outbound ex_SetURL ex_answer
           (mkView t 0 t) (Rev0.mkView t0 0 t0) ex_request); reflexivity.
Defined.

Lemma tracker_transparent_witness :
  Tracker_run (WriteHeader 200 :: [Write "a"; Write "b"]) TrackStatusCode
  = mkTracker (WriteHeader 200 :: [Write "a"; Write "b"]) 200.
Proof.
  apply (tracker_transparent (WriteHeader 200) [Write "a"; Write "b"]).
  - cbn. lia.
  - repeat constructor.
Defined.

Lemma tracker_zero_means_silent_witness :
  code (Tracker_run [Write "a"] TrackStatusCode) = 0 <-> [Write "a"] = [].
Proof.
  apply (tracker_zero_means_silent [Write "a"]).
  repeat constructor. cbn. unfold StatusOK. lia.
Defined.

Lemma cancelled_loop_is_silent_witness :
  let i := mkIter CtxDone 0 DoFailed 0 in
  let rest := [mkIter Tick (10 * Second) (Response 200 (Valid (ex_token_json 600 600)))
                 (10 * Second)] in
  wake i = CtxDone /\ snd (Start_run (i :: rest) (Start_init ex_ts)) = [].
Proof.
  intros i rest. split; [reflexivity|].
  exact (proj1 (cancelled_loop_is_silent i rest (Start_init ex_ts) eq_refl)).
Defined.


Lemma timers_wake_at_deadline_witness :
  let i := mkIter FirstFired 0 DoFailed (1 * Second) in
  attempts i (Start_init ex_ts) /\
  (can_wake RetryFired false false (6 * Second) (fst (Start_iter i (Start_init ex_ts))) = true
   <-> now_after i + 5 * Second <= 6 * Second).
Proof.
  intros i.
  assert (attempts i (Start_init ex_ts)) as Ha.
  { split; [discriminate|reflexivity]. }
  split; [exact Ha|].
  exact (proj1 (timers_wake_at_deadline i (Start_init ex_ts) (6 * Second) Ha)
           failed_do).
Defined.

(** The endpoint issues, from second 700 on, a token that expired at
    second 600 with [refresh_in] 5: each of three passes makes an
    exchange. *)
Lemma expired_short_token_spins_witness :
  let rt := Response 200 (Valid (ex_token_json 600 5)) in
  let l := fst (Start_iter (mkIter FirstFired (700 * Second) rt (700 * Second))
                  (Start_init ex_ts)) in
  let passes := [mkIter TimeoutFired (700 * Second) rt (701 * Second);
                 mkIter TimeoutFired (701 * Second) rt (702 * Second);
                 mkIter Tick (702 * Second) rt (703 * Second)] in
  due_when_armed passes l /\
  exchanges (snd (Start_run passes l)) = replicate 3 (refresh_request (ts l)).
Proof.
  intros rt l passes.
  assert (stopped l = false) as H1 by reflexivity.
  assert (successful_exchange rt (mkAPIToken 600 5 "t1")) as H2.
  { exists (Valid (ex_token_json 600 5)). split; [reflexivity|].
    vm_compute. reflexivity. }
  assert (seconds (wrap64 (RefreshIn (mkAPIToken 600 5 "t1") - 10)) <= 0) as H3.
  { vm_compute. discriminate. }
  assert (apiToken (ts l) = mkAPIToken 600 5 "t1") as H4.
  { vm_compute. reflexivity. }
  assert (Forall (fun i => wake i <> CtxDone /\ exchange i = rt /\
                   ExpiresAt (mkAPIToken 600 5 "t1") * Second <= now_ready i)
            passes) as H5.
  { repeat constructor; try discriminate; cbn; unfold Second; lia. }
  destruct (expired_short_token_spins passes l rt _ H1 H2 H3 H4 H5)
    as (Hd & Hx & _).
  split; [exact Hd|exact Hx].
Defined.

Lemma Rev0_refreshes_on_every_wake_witness :
  let l := Rev0.mkLoop
             (Rev0.mkTokenSource
                (Rev0.mkAPIToken 600 600 "t1" (Rev0.mkEndpoints "" "")) "abc")
             (Some (590 * Second)) None false false in
  Rev0.TimeoutFired <> Rev0.CtxDone /\
  exchanges (snd (Rev0.start_iter Rev0.TimeoutFired DoFailed (590 * Second) l))
    = [Rev0.refresh_request (Rev0.ts l)].
Proof.
  intros l.
  assert (Rev0.TimeoutFired <> Rev0.CtxDone) as H by discriminate.
  split; [exact H|].
  exact (proj1 (Rev0_refreshes_on_every_wake Rev0.TimeoutFired DoFailed
                  (590 * Second) l H)).
Defined.

Lemma revisions_decode_alike_witness :
  let data := Valid (ex_token_json 600 600) in
  snd (Rev0.Unmarshal_APIToken data Rev0.zero_APIToken) = None /\
  snd (Unmarshal_APIToken data zero_APIToken) = None.
Proof.
  intros data.
  assert (snd (Rev0.Unmarshal_APIToken data Rev0.zero_APIToken) = None) as H.
  { vm_compute. reflexivity. }
  split; [exact H|].
  destruct (revisions_decode_alike data) as (_ & _ & _ & Herr).
  exact (Herr H).
Defined.

Lemma parseOAuthToken_results_witness :
  parseOAuthToken (Some ex_apps) (ParseOk "gho_2").
Proof.
  assert (Unmarshal_cfg ex_apps ∅ = (fst (Unmarshal_cfg ex_apps ∅), None)) as Hcfg.
  { vm_compute. reflexivity. }
  apply (parseOAuthToken_results ex_apps _ (ParseOk "gho_2") Hcfg).
  right. exists "github.com:Iv1.b", (mkTokenObject "u2" "gho_2").
  split; vm_compute; reflexivity.
Defined.

Lemma parseOAuthToken_single_entry_witness :
  let data := Valid (JObject
    [("github.com:Iv1.a",
      JObject [("user", JString "u1"); ("oauth_token", JString "gho_1");
               ("githubAppId", JString "Iv1.a")])]) in
  exists k o,
    fst (Unmarshal_cfg data ∅) = {[k := o]} /\
    (parseOAuthToken (Some data) (ParseOk "gho_2")
     <-> ParseOk "gho_2" = ParseOk (OAuthToken o)).
Proof.
  intros data.
  assert (Unmarshal_cfg data ∅ = (fst (Unmarshal_cfg data ∅), None)) as Hcfg.
  { vm_compute. reflexivity. }
  assert (size (fst (Unmarshal_cfg data ∅)) = 1%nat) as Hsize.
  { vm_compute. reflexivity. }
  destruct (parseOAuthToken_single_entry data _ Hcfg Hsize) as (k & o & Hk & Hres).
  exists k, o. split; [exact Hk|exact (Hres (ParseOk "gho_2"))].
Defined.

(** An [apps.json] whose second entry is a number does not decode, though
    its first entry is well-formed. *)
Lemma parseOAuthToken_failures_witness :
  let data := Valid (JObject
    [("github.com:Iv1.a", JObject [("oauth_token", JString "gho_1")]);
     ("github.com:Iv1.b", JNumber (IntLit 5))]) in
  parseOAuthToken (Some data) (ParseOk "gho_1")
  <-> ParseOk "gho_1" = ParseErr (ParseUnmarshal UnmarshalTypeError).
Proof.
  intros data.
  apply (proj2 parseOAuthToken_failures data (fst (Unmarshal_cfg data ∅))).
  vm_compute. reflexivity.
Defined.

Lemma no_refresh_before_expiry_witness :
  let l := mkLoop (mkTokenSource (mkAPIToken 600 600 "t1") "abc")
             (Some (590 * Second)) None false false in
  let passes := [mkIter Tick (10 * Second) DoFailed (10 * Second);
                 mkIter TimeoutFired (590 * Second) DoFailed (590 * Second)] in
  snd (Start_run passes l) = [] /\ ts (fst (Start_run passes l)) = ts l.
Proof.
  intros l passes. apply (no_refresh_before_expiry passes l).
  repeat constructor; cbn; unfold Second; lia.
Defined.
